(** * Graph ETL pipeline (src/graph_etl.py): a shallow embedding

    The pipeline of [GraphETLPipeline] is a sequence of Cypher statements that
    a Python driver sends to a graph database.  Each method is embedded as a
    function on an explicit database state: the statement's MATCH clauses
    become list comprehensions over the stored nodes and relationships, its
    aggregations become folds, and CREATE / SET / MERGE build the next state.
    A statement runs in a transaction of its own ([session.run] in auto-commit
    mode), so a statement that raises leaves the state it started from.

    Conventions of the model:
    - a property map is a [gmap string value]; a property is null exactly
      when its key is absent (writing null to a property removes it);
    - numbers are exact rationals ([Q]), compared and added exactly: the
      split between Cypher integers and floats, and the rounding of floats,
      are outside the model;
    - logging calls have no effect on the database and are left out. *)

From Stdlib Require Import List ZArith QArith Bool Lia Lqa.
From stdpp Require Import gmap strings list fin_maps.
Import ListNotations.

Local Open Scope nat_scope.

(** ** Results of a statement *)

Inductive error :=
| ConstraintValidationFailed   (* a uniqueness constraint is violated *)
| TypeError                    (* a function applied to a value of the wrong type *)
| InvalidDate                  (* date() applied to text that is no date *)
| MergeNullProperty.           (* MERGE on a pattern with a null property *)

Inductive result (A : Type) :=
| Ok (a : A)
| Err (e : error).
Arguments Ok {A} a.
Arguments Err {A} e.

Definition rbind {A B} (r : result A) (f : A -> result B) : result B :=
  match r with
  | Ok a => f a
  | Err e => Err e
  end.

Notation "'letR' x ':=' r 'in' k" := (rbind r (fun x => k))
  (at level 10, x name, r at level 100, k at level 200).

Fixpoint foldM {A S} (f : S -> A -> result S) (s : S) (l : list A) : result S :=
  match l with
  | [] => Ok s
  | a :: l' => letR s' := f s a in foldM f s' l'
  end.

Fixpoint mapM {A B} (f : A -> result B) (l : list A) : result (list B) :=
  match l with
  | [] => Ok []
  | a :: l' => letR b := f a in letR bs := mapM f l' in Ok (b :: bs)
  end.

(** ** Values and their Cypher comparisons *)

Module Cypher.

Inductive value :=
| VNum (q : Q)
| VStr (s : string)
| VDate (day : Z)
| VDateTime (day : Z) (secs : Z).

Definition Qltb (a b : Q) : bool :=
  (Qnum a * Zpos (Qden b) <? Qnum b * Zpos (Qden a))%Z.

(** [a < b]: defined between two values of one kind, null ([None])
    otherwise and when either side is null. *)
Definition lt (a b : option value) : option bool :=
  match a, b with
  | Some (VNum x), Some (VNum y) => Some (Qltb x y)
  | Some (VStr x), Some (VStr y) => Some (String.ltb x y)
  | Some (VDate x), Some (VDate y) => Some (x <? y)%Z
  | Some (VDateTime x s), Some (VDateTime y t) =>
      Some ((x <? y)%Z || ((x =? y)%Z && (s <? t)%Z))
  | _, _ => None
  end.

(** A WHERE clause keeps a row only when its predicate is true; null and
    false both drop it. *)
Definition holds (b : option bool) : bool :=
  match b with
  | Some true => true
  | _ => false
  end.

(** [a = b] between two non-null values. *)
Definition eqv (a b : value) : bool :=
  match a, b with
  | VNum x, VNum y => Qeq_bool x y
  | VStr x, VStr y => String.eqb x y
  | VDate x, VDate y => (x =? y)%Z
  | VDateTime x s, VDateTime y t => (x =? y)%Z && (s =? t)%Z
  | _, _ => false
  end.

(** Property match [{key: a}] against a stored property [b]: null on
    either side matches nothing. *)
Definition matches (a b : option value) : bool :=
  match a, b with
  | Some x, Some y => eqv x y
  | _, _ => false
  end.

(** The order used by max() over values of mixed kinds: temporal values
    below text, text below numbers. *)
Definition rank (v : value) : nat :=
  match v with
  | VDateTime _ _ => 0
  | VDate _ => 1
  | VStr _ => 2
  | VNum _ => 3
  end.

Definition below (a b : value) : bool :=
  if rank a <? rank b then true
  else if rank b <? rank a then false
  else holds (lt (Some a) (Some b)).

Definition of_nat (n : nat) : value := VNum (inject_Z (Z.of_nat n)).

End Cypher.
Import Cypher.

(** ** The stored graph *)

Inductive label := Customer | Product | Order | Category | Employee.

Inductive rtype := PLACED | CONTAINS | BELONGS_TO | SIMILAR_TO | CO_PURCHASED.

Definition label_eqb (a b : label) : bool :=
  match a, b with
  | Customer, Customer | Product, Product | Order, Order
  | Category, Category | Employee, Employee => true
  | _, _ => false
  end.

Definition rtype_eqb (a b : rtype) : bool :=
  match a, b with
  | PLACED, PLACED | CONTAINS, CONTAINS | BELONGS_TO, BELONGS_TO
  | SIMILAR_TO, SIMILAR_TO | CO_PURCHASED, CO_PURCHASED => true
  | _, _ => false
  end.

Record node := Node {
  nid : nat;                       (* the engine's identity of the node *)
  nlabel : label;
  nprops : gmap string value
}.

Record rel := Rel {
  rtyp : rtype;
  rsrc : nat;                      (* identity of the start node *)
  rdst : nat;                      (* identity of the end node *)
  rprops : gmap string value
}.

Record db := DB {
  nodes : list node;
  rels : list rel;
  constraints : list label         (* labels whose id property must be unique *)
}.

Definition prop (n : node) (k : string) : option value := nprops n !! k.

Definition has_label (l : label) (n : node) : bool := label_eqb (nlabel n) l.

(** [(n)-[:t]->()] and [()-[:t]->(n)] *)
Definition out_rels (d : db) (t : rtype) (n : node) : list rel :=
  List.filter (fun r => rtype_eqb (rtyp r) t && (rsrc r =? nid n)) (rels d).

Definition in_rels (d : db) (t : rtype) (n : node) : list rel :=
  List.filter (fun r => rtype_eqb (rtyp r) t && (rdst r =? nid n)) (rels d).

(** The nodes labelled [l] whose identity is [i]. *)
Definition node_at (d : db) (l : label) (i : nat) : list node :=
  List.filter (fun n => has_label l n && (nid n =? i)) (nodes d).

Definition labelled (d : db) (l : label) : list node :=
  List.filter (has_label l) (nodes d).

Definition stored (ns : list node) (i : nat) : bool :=
  existsb (fun n => nid n =? i) ns.

(** A relationship is attached to a set of nodes when one of its ends
    is among them. *)
Definition attached (ns : list node) (r : rel) : bool :=
  stored ns (rsrc r) || stored ns (rdst r).

(** The engine keeps no relationship without both its end nodes. *)
Definition wf_db (d : db) : Prop :=
  forallb (fun r => stored (nodes d) (rsrc r) && stored (nodes d) (rdst r))
          (rels d) = true.

(** ** Derived relationships *)

(** [(c)-[:PLACED]->(:Order)-[:CONTAINS]->(p:Product)], one entry per path. *)
Definition purchased (d : db) (c : node) : list node :=
  flat_map (fun r1 =>
    flat_map (fun o =>
      flat_map (fun r2 => node_at d Product (rdst r2))
               (out_rels d CONTAINS o))
      (node_at d Order (rdst r1)))
    (out_rels d PLACED c).

(** [(p)<-[:CONTAINS]-(:Order)<-[:PLACED]-(c:Customer)], one entry per path. *)
Definition buyers (d : db) (p : node) : list node :=
  flat_map (fun r2 =>
    flat_map (fun o =>
      flat_map (fun r1 => node_at d Customer (rsrc r1))
               (in_rels d PLACED o))
      (node_at d Order (rsrc r2)))
    (in_rels d CONTAINS p).

Definition same_node (a b : node) : bool := nid a =? nid b.

(** [count(p)] in the group of [c1], [c2]: the rows of the two MATCH
    clauses, a path from [c1] and a path from [c2] that end in one product. *)
Definition common_products (d : db) (c1 c2 : node) : nat :=
  length (flat_map (fun p => List.filter (same_node p) (purchased d c2))
                   (purchased d c1)).

Definition similar_rows (d : db) : list (node * node * nat) :=
  flat_map (fun c1 =>
    flat_map (fun c2 =>
      if holds (lt (prop c1 "id") (prop c2 "id")) then
        let n := common_products d c1 c2 in
        if 2 <=? n then [(c1, c2, n)] else []
      else [])
      (labelled d Customer))
    (labelled d Customer).

Definition similar_edge (row : node * node * nat) : rel :=
  let '(c1, c2, n) := row in
  Rel SIMILAR_TO (nid c1) (nid c2) {[ "strength" := of_nat n ]}.

Definition create_customer_similarity_relationships (d : db) : db :=
  DB (nodes d) (rels d ++ map similar_edge (similar_rows d)) (constraints d).

(** [count(c)] in the group of [p1], [p2]: a path from [p1] back to a
    customer and a path from that customer on to [p2]. *)
Definition co_purchases (d : db) (p1 p2 : node) : nat :=
  length (flat_map (fun c => List.filter (same_node p2) (purchased d c))
                   (buyers d p1)).

Definition co_purchase_rows (d : db) : list (node * node * nat) :=
  flat_map (fun p1 =>
    flat_map (fun p2 =>
      if holds (lt (prop p1 "id") (prop p2 "id")) then
        let n := co_purchases d p1 p2 in
        if 2 <=? n then [(p1, p2, n)] else []
      else [])
      (labelled d Product))
    (labelled d Product).

Definition co_purchase_edge (row : node * node * nat) : rel :=
  let '(p1, p2, n) := row in
  Rel CO_PURCHASED (nid p1) (nid p2) {[ "frequency" := of_nat n ]}.

Definition create_product_co_purchase_relationships (d : db) : db :=
  DB (nodes d) (rels d ++ map co_purchase_edge (co_purchase_rows d)) (constraints d).

(** ** Customer metrics *)

(** [(c:Customer)-[:PLACED]->(o:Order)] for a given [c], one entry per row. *)
Definition orders_of (d : db) (c : node) : list node :=
  flat_map (fun r => node_at d Order (rdst r)) (out_rels d PLACED c).

(** Aggregating functions skip null: only the orders that carry the
    property contribute a value. *)
Definition non_null (k : string) (os : list node) : list value :=
  omap (fun o => prop o k) os.

(** sum() and avg() accept numbers only. *)
Definition number (v : value) : result Q :=
  match v with
  | VNum q => Ok q
  | _ => Err TypeError
  end.

Definition total (qs : list Q) : Q := fold_left Qplus qs 0%Q.

Definition average (qs : list Q) : option value :=
  match qs with
  | [] => None
  | _ => Some (VNum (total qs / inject_Z (Z.of_nat (length qs))))
  end.

Definition maximum (vs : list value) : option value :=
  fold_left (fun acc v =>
               match acc with
               | None => Some v
               | Some m => if below m v then Some v else Some m
               end) vs None.

(** The CASE expression of the SET clause. *)
Definition customer_tier (total_spent : Q) : string :=
  if Qltb 5000 total_spent then "VIP"
  else if Qltb 2000 total_spent then "Premium"
  else "Standard".

(** [SET n.k = v]; setting a property to null removes it. *)
Definition set_prop (k : string) (v : option value) (m : gmap string value)
  : gmap string value :=
  match v with
  | Some x => <[k := x]> m
  | None => delete k m
  end.

Definition set_metrics (c : node) (os : list node) : result node :=
  letR amounts := mapM number (non_null "total_amount" os) in
  let total_orders := of_nat (length os) in
  let total_spent := total amounts in
  let avg_order_value := average amounts in
  let last_order_date := maximum (non_null "order_date" os) in
  Ok (Node (nid c) (nlabel c)
        (set_prop "customer_tier" (Some (VStr (customer_tier total_spent)))
        (set_prop "last_order_date" last_order_date
        (set_prop "avg_order_value" avg_order_value
        (set_prop "total_spent" (Some (VNum total_spent))
        (set_prop "total_orders" (Some total_orders) (nprops c))))))).

(** The rows of the MATCH are grouped by customer; a customer without a
    row forms no group and is not reached by the SET. *)
Definition update_customer (d : db) (n : node) : result node :=
  if has_label Customer n then
    match orders_of d n with
    | [] => Ok n
    | os => set_metrics n os
    end
  else Ok n.

Definition calculate_customer_metrics (d : db) : result db :=
  letR ns := mapM (update_customer d) (nodes d) in
  Ok (DB ns (rels d) (constraints d)).

(** ** Clearing, constraints and loading *)

(** [MATCH (n) DETACH DELETE n]: every node goes, and with it every
    relationship attached to a deleted node. *)
Definition clear_database (d : db) : db :=
  DB [] (List.filter (fun r => negb (attached (nodes d) r)) (rels d)) (constraints d).

Definition constrained (d : db) (l : label) : bool :=
  existsb (label_eqb l) (constraints d).

Definition id_clash (a b : node) : bool :=
  label_eqb (nlabel a) (nlabel b) && matches (prop a "id") (prop b "id").

Fixpoint distinct_ids (ns : list node) : bool :=
  match ns with
  | [] => true
  | n :: ns' => negb (existsb (id_clash n) ns') && distinct_ids ns'
  end.

(** [CREATE CONSTRAINT ... IF NOT EXISTS ... REQUIRE n.id IS UNIQUE] *)
Definition create_constraint (d : db) (l : label) : result db :=
  if constrained d l then Ok d
  else if distinct_ids (labelled d l)
       then Ok (DB (nodes d) (rels d) (constraints d ++ [l]))
       else Err ConstraintValidationFailed.

(** A constraint that cannot be created is logged and skipped. *)
Definition create_constraints (d : db) : db :=
  fold_left (fun d l => match create_constraint d l with
                        | Ok d' => d'
                        | Err _ => d
                        end)
            [Customer; Product; Order; Employee] d.

Definition fresh (d : db) : nat := S (list_max (map nid (nodes d))).

Definition create_node (d : db) (l : label) (ps : gmap string value)
  : result (db * node) :=
  let n := Node (fresh d) l ps in
  if constrained d l && existsb (id_clash n) (nodes d)
  then Err ConstraintValidationFailed
  else Ok (DB (nodes d ++ [n]) (rels d) (constraints d), n).

Definition create_rel (d : db) (t : rtype) (a b : node) : db :=
  DB (nodes d) (rels d ++ [Rel t (nid a) (nid b) ∅]) (constraints d).

(** A map literal [{k1: v1, ...}]; a null value leaves its key out. *)
Definition props_of (l : list (string * option value)) : gmap string value :=
  fold_right (fun kv m => set_prop (fst kv) (snd kv) m) ∅ l.

(** One record of [df.to_dict('records')]: column name to value, a
    missing value being an absent key. *)
Abbreviation row := (gmap string value).

Inductive outcome := Done | Raised (e : error).

Definition step := db -> db * outcome.

(** A statement in its own transaction: it commits, or raises and leaves
    the database as it was. *)
Definition commit (q : db -> result db) : step :=
  fun d => match q d with
           | Ok d' => (d', Done)
           | Err e => (d, Raised e)
           end.

Definition always (f : db -> db) : step := fun d => (f d, Done).

(** Statements in sequence; the first that raises ends the run. *)
Fixpoint run_steps (ss : list step) (d : db) : db * outcome :=
  match ss with
  | [] => (d, Done)
  | s :: ss' =>
      match s d with
      | (d', Done) => run_steps ss' d'
      | (d', Raised e) => (d', Raised e)
      end
  end.

Section Pipeline.

(** What the engine parses as a date out of text, as a day number. *)
Variable parse_date : string -> option Z.

(** The graph-data-science procedures: whether the projection of the
    customer graph is created, and for each algorithm the score it writes
    on a customer, or [None] when the call fails. *)
Variable gds_project : db -> bool.
Variable gds : string -> db -> option (node -> value).

(** [date(v)] *)
Definition date (v : option value) : result (option value) :=
  match v with
  | None => Ok None
  | Some (VDate day) => Ok (Some (VDate day))
  | Some (VDateTime day _) => Ok (Some (VDate day))
  | Some (VStr s) =>
      match parse_date s with
      | Some day => Ok (Some (VDate day))
      | None => Err InvalidDate
      end
  | Some (VNum _) => Err TypeError
  end.

Definition create_customer (d : db) (customer : row) : result db :=
  letR registration_date := date (customer !! "registration_date") in
  letR r := create_node d Customer (props_of [
      ("id", customer !! "id");
      ("name", customer !! "name");
      ("email", customer !! "email");
      ("city", customer !! "city");
      ("country", customer !! "country");
      ("segment", customer !! "segment");
      ("registration_date", registration_date);
      ("lifetime_value", customer !! "lifetime_value") ]) in
  Ok (fst r).

Definition load_customers (customers_df : list row) (d : db) : result db :=
  foldM create_customer d customers_df.

Definition create_product (d : db) (product : row) : result db :=
  letR launch_date := date (product !! "launch_date") in
  letR r := create_node d Product (props_of [
      ("id", product !! "id");
      ("name", product !! "name");
      ("category", product !! "category");
      ("price", product !! "price");
      ("cost", product !! "cost");
      ("margin", product !! "margin");
      ("launch_date", launch_date) ]) in
  Ok (fst r).

Definition linked (d : db) (t : rtype) (a b : node) : bool :=
  existsb (fun r => rtype_eqb (rtyp r) t && (rsrc r =? nid a) && (rdst r =? nid b))
          (rels d).

(** [MERGE (c:Category {name: p.category}) MERGE (p)-[:BELONGS_TO]->(c)]
    for one product [p]. *)
Definition merge_category (d : db) (p : node) : result db :=
  match prop p "category" with
  | None => Err MergeNullProperty
  | Some v =>
      let found := List.filter (fun c => has_label Category c
                                         && matches (Some v) (prop c "name"))
                               (nodes d) in
      letR dc := match found with
                 | [] => letR r := create_node d Category {[ "name" := v ]} in
                         Ok (fst r, [snd r])
                 | _ => Ok (d, found)
                 end in
      Ok (fold_left (fun d c => if linked d BELONGS_TO p c then d
                                else create_rel d BELONGS_TO p c)
                    (snd dc) (fst dc))
  end.

Definition create_products (products_df : list row) (d : db) : result db :=
  foldM create_product d products_df.

Definition merge_categories (d : db) : result db :=
  foldM merge_category d (labelled d Product).

(** Two statements, each committed on its own. *)
Definition load_products (products_df : list row) : step :=
  run_steps [commit (create_products products_df); commit merge_categories].

(** The rows left by the two MATCH clauses for one order. *)
Definition order_endpoints (d : db) (order : row) : list (node * node) :=
  flat_map (fun c =>
      map (pair c)
          (List.filter (fun p => has_label Product p
                                 && matches (order !! "product_id") (prop p "id"))
                       (nodes d)))
    (List.filter (fun c => has_label Customer c
                           && matches (order !! "customer_id") (prop c "id"))
                 (nodes d)).

Definition create_order (order : row) (d : db) (cp : node * node) : result db :=
  letR order_date := date (order !! "order_date") in
  letR r := create_node d Order (props_of [
      ("id", order !! "id");
      ("order_date", order_date);
      ("quantity", order !! "quantity");
      ("unit_price", order !! "unit_price");
      ("total_amount", order !! "total_amount");
      ("discount", order !! "discount") ]) in
  Ok (create_rel (create_rel (fst r) PLACED (fst cp) (snd r))
                 CONTAINS (snd r) (snd cp)).

Definition load_order (d : db) (order : row) : result db :=
  foldM (create_order order) d (order_endpoints d order).

Definition load_orders (orders_df : list row) (d : db) : result db :=
  foldM load_order d orders_df.

(** The analytics write one property per algorithm on the projected
    (Customer) nodes; each failure is logged and skipped. *)
Definition write_property (k : string) (f : node -> value) (d : db) : db :=
  DB (map (fun n => if has_label Customer n
                    then Node (nid n) (nlabel n) (<[k := f n]> (nprops n))
                    else n)
          (nodes d))
     (rels d) (constraints d).

Definition run_graph_analytics (d : db) : db :=
  if gds_project d then
    fold_left (fun d q => match gds (fst q) d with
                          | Some f => write_property (snd q) f d
                          | None => d
                          end)
              [("pagerank", "pagerank");
               ("community_detection", "community");
               ("centrality", "betweenness")] d
  else d.

(** [main], with the three tables it loads as arguments. *)
Definition main (d : db) (customers_df products_df orders_df : list row)
  : db * outcome :=
  run_steps [
      always clear_database;
      always create_constraints;
      commit (load_customers customers_df);
      load_products products_df;
      commit (load_orders orders_df);
      always create_customer_similarity_relationships;
      always create_product_co_purchase_relationships;
      commit calculate_customer_metrics;
      always run_graph_analytics ] d.

End Pipeline.

(** ** Failures from outside the data *)

(** A statement can also fail for a reason that is not in the data: the
    server cannot be reached, the connection drops, a memory limit is
    hit.  The statement then has no effect and the exception leaves
    [main], as no method catches it; only create_constraints and
    run_graph_analytics catch what their statements raise. *)
Inductive ending :=
| Finished                    (* the run printed its success line *)
| Stopped (e : error)         (* a statement raised on the data *)
| Lost.                       (* a statement failed from outside *)

Definition ending_of (o : outcome) : ending :=
  match o with
  | Done => Finished
  | Raised e => Stopped e
  end.

Definition attempt (lost : bool) (s : step) : db -> db * ending :=
  fun d => if lost then (d, Lost)
           else (fst (s d), ending_of (snd (s d))).

Fixpoint run_attempts (ss : list (bool * step)) (d : db) : db * ending :=
  match ss with
  | [] => (d, Finished)
  | (lost, s) :: ss' =>
      match attempt lost s d with
      | (d', Finished) => run_attempts ss' d'
      | failed => failed
      end
  end.

(** create_constraints logs and skips a constraint whose statement
    fails, for whatever reason. *)
Definition create_constraints_despite (lost : label -> bool) (d : db) : db :=
  fold_left (fun d l => if lost l then d
                        else match create_constraint d l with
                             | Ok d' => d'
                             | Err _ => d
                             end)
            [Customer; Product; Order; Employee] d.

Section Failures.

Variable parse_date : string -> option Z.
Variable gds_project : db -> bool.
Variable gds : string -> db -> option (node -> value).

(** Which statements of the run fail from outside: the [k]-th of the
    statements that [main] does not guard, and the constraint of a
    label.  A failure inside run_graph_analytics is a value of
    [gds_project] or [gds]. *)
Variable lost : nat -> bool.
Variable lost_constraint : label -> bool.

(** [main], statement by statement. *)
Definition main_with_failures (d : db)
           (customers_df products_df orders_df : list row) : db * ending :=
  run_attempts [
      (lost 0, always clear_database);
      (false, always (create_constraints_despite lost_constraint));
      (lost 1, commit (load_customers parse_date customers_df));
      (lost 2, commit (create_products parse_date products_df));
      (lost 3, commit merge_categories);
      (lost 4, commit (load_orders parse_date orders_df));
      (lost 5, always create_customer_similarity_relationships);
      (lost 6, always create_product_co_purchase_relationships);
      (lost 7, commit calculate_customer_metrics);
      (false, always (run_graph_analytics gds_project gds)) ] d.

End Failures.

(** ** Auxiliary definitions for the proofs *)




(** Both derivations have the same shape: all ordered pairs of nodes of
    one label, kept when the first id is below the second and the count
    reaches 2. *)
Definition pair_rows (d : db) (l : label) (count : node -> node -> nat)
  : list (node * node * nat) :=
  flat_map (fun a =>
    flat_map (fun b =>
      if holds (lt (prop a "id") (prop b "id")) then
        if 2 <=? count a b then [(a, b, count a b)] else []
      else [])
      (labelled d l))
    (labelled d l).

(** The derivations read the nodes and the PLACED and CONTAINS
    relationships only. *)
Definition is_derived (r : rel) : bool :=
  match rtyp r with
  | SIMILAR_TO | CO_PURCHASED => true
  | _ => false
  end.

Definition add_rels (d : db) (extra : list rel) : db :=
  DB (nodes d) (rels d ++ extra) (constraints d).

(** The two derivations in the order [main] runs them. *)
Definition derive (d : db) : db :=
  create_product_co_purchase_relationships
    (create_customer_similarity_relationships d).

Definition derived_edges (d : db) : list rel :=
  map similar_edge (similar_rows d) ++ map co_purchase_edge (co_purchase_rows d).

(** The counts as the specification words them: the distinct products
    two customers have both ordered, the distinct customers who ordered
    both of two products. *)
Definition distinct_shared_products (d : db) (c1 c2 : node) : nat :=
  length (nodup Nat.eq_dec
            (map nid (List.filter (fun p => existsb (same_node p) (purchased d c2))
                                  (purchased d c1)))).

Definition distinct_shared_customers (d : db) (p1 p2 : node) : nat :=
  length (nodup Nat.eq_dec
            (map nid (List.filter (fun c => existsb (same_node p2) (purchased d c))
                                  (buyers d p1)))).

(** The amounts that sum() adds up, and the check that no order of a
    customer carries an amount that is not a number. *)
Definition amounts (os : list node) : list Q :=
  omap (fun o => match prop o "total_amount" with
                 | Some (VNum q) => Some q
                 | _ => None
                 end) os.

Definition amount_numeric (o : node) : bool :=
  match prop o "total_amount" with
  | Some (VNum _) | None => true
  | Some _ => false
  end.

Definition amounts_numeric (d : db) : bool :=
  forallb (fun c => forallb amount_numeric (orders_of d c)) (labelled d Customer).

(** An order is dangling when its customer_id matches no stored
    customer or its product_id matches no stored product. *)
Definition customer_present (d : db) (order : row) : bool :=
  existsb (fun c => has_label Customer c
                    && matches (order !! "customer_id") (prop c "id"))
          (nodes d).

Definition product_present (d : db) (order : row) : bool :=
  existsb (fun p => has_label Product p
                    && matches (order !! "product_id") (prop p "id"))
          (nodes d).

Definition dangling (d : db) (order : row) : bool :=
  negb (customer_present d order) || negb (product_present d order).

(** The nodes the MATCH clauses of load_orders range over. *)
Definition is_party (n : node) : bool :=
  has_label Customer n || has_label Product n.

Definition parties (d : db) : list node := List.filter is_party (nodes d).

(** The properties written by calculate_customer_metrics. *)
Definition metric_keys : list string :=
  ["total_orders"; "total_spent"; "avg_order_value"; "last_order_date";
   "customer_tier"].

Definition metric_free (d : db) : Prop :=
  forall n k, In n (nodes d) -> In k metric_keys -> prop n k = None.

(** A step keeps a property of the database, whatever its outcome. *)
Definition preserves (P : db -> Prop) (s : step) : Prop :=
  forall d, P d -> P (fst (s d)).

(** The columns load_customers copies without change. *)
Definition customer_columns : list string :=
  ["id"; "name"; "email"; "city"; "country"; "segment"; "lifetime_value"].

(** A stored customer that answers to the id [v]. *)
Definition customer_with_id (d : db) (v : option value) : bool :=
  existsb (fun c => has_label Customer c && matches v (prop c "id")) (nodes d).

Definition categorised (p : node) : bool :=
  match prop p "category" with
  | Some _ => true
  | None => false
  end.

(** What a load of orders adds to a database: Order nodes only, and for
    each of them two relationships, PLACED or CONTAINS. *)
Definition order_growth (d d' : db) : Prop :=
  constraints d' = constraints d /\
  exists new extra,
    nodes d' = nodes d ++ new /\ rels d' = rels d ++ extra /\
    forallb (has_label Order) new = true /\
    forallb (fun r => rtype_eqb (rtyp r) PLACED || rtype_eqb (rtyp r) CONTAINS)
            extra = true /\
    length extra = 2 * length new.

(** [d'] is [d] up to the properties [keys] of its customers: the
    relationships and constraints are the same, every node keeps its
    place, identity and label, nodes that are no customers are
    unchanged, and customers keep every property outside [keys]. *)
Definition differs_only_on (keys : list string) (d d' : db) : Prop :=
  rels d' = rels d /\ constraints d' = constraints d /\
  length (nodes d') = length (nodes d) /\
  forall i c, nodes d !! i = Some c ->
    exists c', nodes d' !! i = Some c' /\
               nid c' = nid c /\ nlabel c' = nlabel c /\
               (has_label Customer c = false -> c' = c) /\
               forall k, ~ In k keys -> prop c' k = prop c k.

(** The days of the orders whose order_date is a date. *)
Definition order_days (os : list node) : list Z :=
  omap (fun o => match prop o "order_date" with
                 | Some (VDate day) => Some day
                 | _ => None
                 end) os.

Definition dated (o : node) : bool :=
  match prop o "order_date" with
  | Some (VDate _) | None => true
  | Some _ => false
  end.

(** The properties written by run_graph_analytics. *)
Definition analytics_keys : list string := ["pagerank"; "community"; "betweenness"].

(** The labels create_constraints asks a constraint for. *)
Definition constraint_target (l : label) : bool :=
  match l with
  | Customer | Product | Order | Employee => true
  | Category => false
  end.

(** ** Sample tables *)

Module Sample.

Definition no_parse : string -> option Z := fun _ => None.
Definition no_projection : db -> bool := fun _ => false.
Definition no_gds : string -> db -> option (node -> value) := fun _ _ => None.

Definition empty : db := DB [] [] [].

(** The [i]-th node of a list. *)
Definition pick (l : list node) (i : nat) : node := nth i l (Node 0 Customer ∅).

Definition customer (i : Z) : row :=
  list_to_map [("id", VNum (inject_Z i)); ("name", VStr "customer");
               ("registration_date", VDateTime 18262 0)].

Definition product (i : Z) : row :=
  list_to_map [("id", VNum (inject_Z i)); ("name", VStr "product");
               ("category", VStr "Books")].

Definition order (i c p : Z) (total_amount : option Q) : row :=
  set_prop "total_amount" (VNum <$> total_amount)
    (list_to_map [("id", VNum (inject_Z i));
                  ("customer_id", VNum (inject_Z c));
                  ("product_id", VNum (inject_Z p));
                  ("order_date", VDate (19358 + i))]).

Definition run (d : db) (customers products orders : list row) : db * outcome :=
  main no_parse no_projection no_gds d customers products orders.

(** The three loading steps alone, from the empty graph. *)
Definition load (customers products orders : list row) : db :=
  fst (run_steps [ commit (load_customers no_parse customers);
                   load_products no_parse products;
                   commit (load_orders no_parse orders) ] empty).

(** Customers 1, 2, 3 order products {10, 20}, {10, 20, 30}, {30}. *)
Definition scenario_orders : list row :=
  [ order 1 1 10 (Some 100%Q); order 2 1 20 (Some 250%Q);
    order 3 2 10 (Some 650%Q); order 4 2 20 (Some 3000%Q);
    order 5 2 30 (Some 1350%Q); order 6 3 30 (Some 5000.01%Q) ].

Definition scenario : db :=
  load [customer 1; customer 2; customer 3]
       [product 10; product 20; product 30] scenario_orders.

(** A complete run over the scenario tables, from the empty graph. *)
Definition scenario_run : db * outcome :=
  run empty [customer 1; customer 2; customer 3]
      [product 10; product 20; product 30] scenario_orders.

(** Customer 1 orders product 10 twice, customer 2 once. *)
Definition repeat_orders : list row :=
  [ order 1 1 10 (Some 100%Q); order 2 1 10 (Some 250%Q);
    order 3 2 10 (Some 650%Q) ].

(** Customer 1 orders product 10 twice and product 20 once; the amounts
    are 100, 250 and 650. *)
Definition single_buyer_orders : list row :=
  [ order 1 1 10 (Some 100%Q); order 2 1 10 (Some 250%Q);
    order 3 1 20 (Some 650%Q) ].

(** Customer 1 has an order without a total_amount; customer 4 has no
    order at all. *)
Definition sparse_orders : list row :=
  [ order 1 1 10 (Some 100%Q); order 2 1 10 None ].

Definition sparse : db := load [customer 1; customer 4] [product 10] sparse_orders.

(** The only order of customer 1 has no total_amount. *)
Definition unpriced : db :=
  load [customer 1] [product 10] [order 1 1 10 None].

(** A product table whose second record has no category. *)
Definition uncategorised_products : list row :=
  [ product 10; delete "category" (product 20) ].



(** Order 1 is sound; order 2 names a customer and order 3 a product
    that are not in the tables. *)
Definition dangling_orders : list row :=
  [ order 1 1 10 (Some 100%Q); order 2 99 10 (Some 250%Q);
    order 3 1 77 (Some 650%Q) ].

End Sample.

(** * Properties *)

(** ** Comparisons *)

Lemma Qltb_lt (a b : Q) : Qltb a b = true <-> (a < b)%Q.
Proof. unfold Qltb, Qlt. apply Z.ltb_lt. Qed.

Lemma Qltb_ge (a b : Q) : Qltb a b = false <-> (b <= a)%Q.
Proof. unfold Qltb, Qle. rewrite Z.ltb_ge. reflexivity. Qed.

Lemma string_ltb_asym (s t : string) :
  String.ltb s t = true -> String.ltb t s = false.
Proof.
  unfold String.ltb. rewrite (String.compare_antisym t s).
  destruct (String.compare s t); simpl; congruence.
Qed.

(** [<] is asymmetric on every kind of value: a WHERE clause cannot keep
    a pair in both orders. *)
Lemma lt_asym (a b : option value) :
  holds (lt a b) = true -> holds (lt b a) = false.
Proof.
  destruct a as [[x|s|x|x u]|], b as [[y|t|y|y v]|]; simpl; try congruence.
  - unfold Qltb.
    destruct (Z.ltb_spec (Qnum x * Z.pos (Qden y)) (Qnum y * Z.pos (Qden x)));
      destruct (Z.ltb_spec (Qnum y * Z.pos (Qden x)) (Qnum x * Z.pos (Qden y)));
      simpl; try congruence; lia.
  - destruct (String.ltb s t) eqn:E; [|discriminate].
    intros _. now rewrite (string_ltb_asym _ _ E).
  - destruct (Z.ltb_spec x y), (Z.ltb_spec y x); simpl; try congruence; lia.
  - destruct (Z.ltb_spec x y), (Z.ltb_spec y x), (Z.eqb_spec x y),
      (Z.eqb_spec y x), (Z.ltb_spec u v), (Z.ltb_spec v u);
      simpl; try congruence; lia.
Qed.

Lemma lt_irrefl (a : option value) : holds (lt a a) = false.
Proof.
  destruct (holds (lt a a)) eqn:E; [|reflexivity].
  now rewrite (lt_asym _ _ E) in E.
Qed.

(** ** The rows of the two derivations *)


Lemma similar_rows_eq (d : db) :
  similar_rows d = pair_rows d Customer (common_products d).
Proof. reflexivity. Qed.

Lemma co_purchase_rows_eq (d : db) :
  co_purchase_rows d = pair_rows d Product (co_purchases d).
Proof. reflexivity. Qed.

Lemma in_pair_rows (d : db) (l : label) (count : node -> node -> nat)
      (a b : node) (n : nat) :
  In (a, b, n) (pair_rows d l count) <->
  In a (labelled d l) /\ In b (labelled d l) /\
  holds (lt (prop a "id") (prop b "id")) = true /\
  n = count a b /\ 2 <= n.
Proof.
  unfold pair_rows. rewrite in_flat_map. split.
  - intros (a' & Ha & H). apply in_flat_map in H as (b' & Hb & H).
    destruct (holds (lt (prop a' "id") (prop b' "id"))) eqn:Hlt; [|destruct H].
    destruct (Nat.leb_spec 2 (count a' b')); [|destruct H].
    destruct H as [H|[]]. inversion H; subst. auto.
  - intros (Ha & Hb & Hlt & -> & Hn).
    exists a. split; [assumption|]. apply in_flat_map.
    exists b. split; [assumption|]. rewrite Hlt.
    destruct (Nat.leb_spec 2 (count a b)); [now left | lia].
Qed.

Lemma pair_rows_canonical (d : db) (l : label) (count : node -> node -> nat)
      (a b : node) (n : nat) :
  In (a, b, n) (pair_rows d l count) ->
  holds (lt (prop a "id") (prop b "id")) = true /\
  a <> b /\
  forall m, ~ In (b, a, m) (pair_rows d l count).
Proof.
  intros H. apply in_pair_rows in H as (_ & _ & Hlt & _ & _).
  split; [assumption|]. split.
  - intros ->. now rewrite lt_irrefl in Hlt.
  - intros m H'. apply in_pair_rows in H' as (_ & _ & Hlt' & _ & _).
    now rewrite (lt_asym _ _ Hlt) in Hlt'.
Qed.


Lemma filter_none {A} (f : A -> bool) (l : list A) :
  (forall x, In x l -> f x = false) -> List.filter f l = [].
Proof.
  induction l as [|x l IH]; simpl; intros H; [reflexivity|].
  rewrite (H x (or_introl eq_refl)). apply IH. intros y Hy. apply H. now right.
Qed.

Lemma out_rels_add (d : db) (extra : list rel) (t : rtype) (n : node) :
  forallb is_derived extra = true -> is_derived (Rel t 0 0 ∅) = false ->
  out_rels (add_rels d extra) t n = out_rels d t n.
Proof.
  intros Hex Ht. unfold out_rels, add_rels; simpl.
  rewrite List.filter_app, (filter_none _ extra), app_nil_r; [reflexivity|].
  intros r Hr. rewrite forallb_forall in Hex. specialize (Hex r Hr).
  unfold is_derived in *; simpl in *.
  destruct (rtyp r), t; simpl in *; congruence.
Qed.

Lemma in_rels_add (d : db) (extra : list rel) (t : rtype) (n : node) :
  forallb is_derived extra = true -> is_derived (Rel t 0 0 ∅) = false ->
  in_rels (add_rels d extra) t n = in_rels d t n.
Proof.
  intros Hex Ht. unfold in_rels, add_rels; simpl.
  rewrite List.filter_app, (filter_none _ extra), app_nil_r; [reflexivity|].
  intros r Hr. rewrite forallb_forall in Hex. specialize (Hex r Hr).
  unfold is_derived in *; simpl in *.
  destruct (rtyp r), t; simpl in *; congruence.
Qed.

Lemma flat_map_ext_in {A B} (f g : A -> list B) (l : list A) :
  (forall x, In x l -> f x = g x) -> flat_map f l = flat_map g l.
Proof.
  induction l as [|x l IH]; simpl; intros H; [reflexivity|].
  rewrite (H x (or_introl eq_refl)), IH; [reflexivity|].
  intros y Hy. apply H. now right.
Qed.

Lemma purchased_add (d : db) (extra : list rel) (c : node) :
  forallb is_derived extra = true ->
  purchased (add_rels d extra) c = purchased d c.
Proof.
  intros Hex. unfold purchased.
  rewrite (out_rels_add d extra PLACED c Hex eq_refl).
  apply flat_map_ext_in; intros r1 _.
  apply flat_map_ext_in; intros o _.
  now rewrite (out_rels_add d extra CONTAINS o Hex eq_refl).
Qed.

Lemma buyers_add (d : db) (extra : list rel) (p : node) :
  forallb is_derived extra = true ->
  buyers (add_rels d extra) p = buyers d p.
Proof.
  intros Hex. unfold buyers.
  rewrite (in_rels_add d extra CONTAINS p Hex eq_refl).
  apply flat_map_ext_in; intros r2 _.
  apply flat_map_ext_in; intros o _.
  now rewrite (in_rels_add d extra PLACED o Hex eq_refl).
Qed.

Lemma pair_rows_ext (d d' : db) (l : label) (f g : node -> node -> nat) :
  nodes d' = nodes d -> (forall a b, f a b = g a b) ->
  pair_rows d' l f = pair_rows d l g.
Proof.
  intros Hn Hfg. unfold pair_rows, labelled. rewrite Hn.
  apply flat_map_ext_in; intros a _. apply flat_map_ext_in; intros b _.
  now rewrite Hfg.
Qed.

Lemma similar_rows_add (d : db) (extra : list rel) :
  forallb is_derived extra = true ->
  similar_rows (add_rels d extra) = similar_rows d.
Proof.
  intros Hex. rewrite !similar_rows_eq. apply pair_rows_ext; [reflexivity|].
  intros a b. unfold common_products.
  now rewrite !(purchased_add d extra _ Hex).
Qed.

Lemma co_purchase_rows_add (d : db) (extra : list rel) :
  forallb is_derived extra = true ->
  co_purchase_rows (add_rels d extra) = co_purchase_rows d.
Proof.
  intros Hex. rewrite !co_purchase_rows_eq. apply pair_rows_ext; [reflexivity|].
  intros a b. unfold co_purchases. rewrite (buyers_add d extra _ Hex).
  apply f_equal, flat_map_ext_in; intros c _.
  now rewrite (purchased_add d extra _ Hex).
Qed.

Lemma similar_edges_derived (l : list (node * node * nat)) :
  forallb is_derived (map similar_edge l) = true.
Proof. induction l as [|[[a b] n] l IH]; simpl; auto. Qed.

Lemma co_purchase_edges_derived (l : list (node * node * nat)) :
  forallb is_derived (map co_purchase_edge l) = true.
Proof. induction l as [|[[a b] n] l IH]; simpl; auto. Qed.


Lemma rels_derive (d : db) :
  rels (derive d) = rels d ++ derived_edges d.
Proof.
  unfold derive, derived_edges. simpl. rewrite <- app_assoc. do 3 f_equal.
  apply (co_purchase_rows_add d), similar_edges_derived.
Qed.

Lemma derived_edges_derived (d : db) :
  forallb is_derived (derived_edges d) = true.
Proof.
  unfold derived_edges. rewrite forallb_app.
  now rewrite similar_edges_derived, co_purchase_edges_derived.
Qed.

Lemma derive_add_rels (d : db) : derive d = add_rels d (derived_edges d).
Proof.
  unfold add_rels. rewrite <- rels_derive. reflexivity.
Qed.

Lemma node_by_nid (ns : list node) (x y : node) :
  NoDup (map nid ns) -> In x ns -> In y ns -> nid x = nid y -> x = y.
Proof.
  induction ns as [|n ns IH]; simpl; intros Hnd Hx Hy E; [destruct Hx|].
  inversion Hnd as [|? ? Hnot Hnd']; subst.
  destruct Hx as [->|Hx], Hy as [->|Hy]; auto.
  - exfalso. apply Hnot, list_elem_of_In. rewrite E. now apply in_map.
  - exfalso. apply Hnot, list_elem_of_In. rewrite <- E. now apply in_map.
Qed.

Lemma in_labelled (d : db) (l : label) (n : node) :
  In n (labelled d l) -> In n (nodes d).
Proof. unfold labelled. rewrite filter_In. tauto. Qed.

(** Every derived edge comes from a row over stored nodes. *)
Lemma derived_edge_row (d : db) (r : rel) :
  In r (derived_edges d) ->
  exists a b, In a (nodes d) /\ In b (nodes d) /\
              nid a = rsrc r /\ nid b = rdst r /\
              holds (lt (prop a "id") (prop b "id")) = true.
Proof.
  unfold derived_edges. rewrite in_app_iff, !in_map_iff.
  intros [([[a b] n] & <- & H)|([[a b] n] & <- & H)];
    [rewrite similar_rows_eq in H | rewrite co_purchase_rows_eq in H];
    apply in_pair_rows in H as (Ha & Hb & Hlt & _);
    exists a, b; simpl; eauto 10 using in_labelled.
Qed.

(** C6: every edge a derivation emits runs from the endpoint with the
    lower id to the endpoint with the higher id; it is no self-pair, and
    the derived edges never hold a pair in both directions. *)
Theorem derived_edges_canonical (d : db) (r : rel) :
  NoDup (map nid (nodes d)) ->
  In r (derived_edges d) ->
  (exists a b, In a (nodes d) /\ In b (nodes d) /\
               nid a = rsrc r /\ nid b = rdst r /\
               holds (lt (prop a "id") (prop b "id")) = true) /\
  rsrc r <> rdst r /\
  forall r', In r' (derived_edges d) ->
             ~ (rsrc r' = rdst r /\ rdst r' = rsrc r).
Proof.
  intros Hnd Hr.
  destruct (derived_edge_row d r Hr) as (a & b & Ha & Hb & Ea & Eb & Hlt).
  split; [eauto 10|]. split.
  - intros E. assert (a = b) as -> by (apply (node_by_nid (nodes d)); congruence).
    now rewrite lt_irrefl in Hlt.
  - intros r' Hr' [E1 E2].
    destruct (derived_edge_row d r' Hr') as (a' & b' & Ha' & Hb' & Ea' & Eb' & Hlt').
    assert (a' = b) as -> by (apply (node_by_nid (nodes d)); congruence).
    assert (b' = a) as -> by (apply (node_by_nid (nodes d)); congruence).
    now rewrite (lt_asym _ _ Hlt) in Hlt'.
Qed.

Lemma derived_edges_canonical_witness :
  let d := Sample.scenario in
  let r := Rel SIMILAR_TO 1 2 {[ "strength" := of_nat 2 ]} in
  In r (derived_edges d) /\
  rsrc r <> rdst r /\
  forall r', In r' (derived_edges d) ->
             ~ (rsrc r' = rdst r /\ rdst r' = rsrc r).
Proof.
  intros d r.
  assert (Hnd : NoDup (map nid (nodes d))).
  { apply (bool_decide_unpack _). vm_compute. reflexivity. }
  assert (Hr : In r (derived_edges d)) by (vm_compute; auto).
  split; [exact Hr|].
  exact (proj2 (derived_edges_canonical d r Hnd Hr)).
Defined.

(** C3, as the code has it: a second run of the derivations computes the
    same edges as the first (same pairs, same scores), and appends them:
    the stored relationships then hold every derived edge twice. *)
Theorem derivation_rerun_appends (d : db) :
  similar_rows (derive d) = similar_rows d /\
  co_purchase_rows (derive d) = co_purchase_rows d /\
  derived_edges (derive d) = derived_edges d /\
  rels (derive (derive d)) = (rels d ++ derived_edges d) ++ derived_edges d.
Proof.
  assert (Hs : similar_rows (derive d) = similar_rows d).
  { rewrite derive_add_rels. apply similar_rows_add, derived_edges_derived. }
  assert (Hc : co_purchase_rows (derive d) = co_purchase_rows d).
  { rewrite derive_add_rels. apply co_purchase_rows_add, derived_edges_derived. }
  assert (He : derived_edges (derive d) = derived_edges d).
  { unfold derived_edges. now rewrite Hs, Hc. }
  repeat split; try assumption.
  now rewrite rels_derive, He, rels_derive.
Qed.

(** C3, as stated, fails: on the scenario store the second run leaves two
    SIMILAR_TO edges between customers 1 and 2 where the first left one. *)
Lemma derivation_rerun_duplicates :
  let d := Sample.scenario in
  let similar := List.filter (fun r => rtype_eqb (rtyp r) SIMILAR_TO) in
  length (similar (rels (derive d))) = 1 /\
  length (similar (rels (derive (derive d)))) = 2 /\
  List.filter is_derived (rels (derive (derive d)))
    <> List.filter is_derived (rels (derive d)).
Proof.
  intros d similar. split; [|split]; try (vm_compute; reflexivity).
  intros E. apply (f_equal (@length rel)) in E. vm_compute in E. discriminate.
Qed.

(** C1 at a failing input: customer 1 orders product 10 twice, customer 2
    orders it once.  They share one distinct product, yet the two MATCH
    clauses leave two rows for the pair, and the run stores a SIMILAR_TO
    edge with strength 2. *)
Theorem similarity_counts_order_pairs :
  let d := fst (Sample.run Sample.empty
                  [Sample.customer 1; Sample.customer 2] [Sample.product 10]
                  Sample.repeat_orders) in
  let c1 := Sample.pick (labelled d Customer) 0 in
  let c2 := Sample.pick (labelled d Customer) 1 in
  labelled d Customer = [c1; c2] /\
  prop c1 "id" = Some (VNum 1) /\ prop c2 "id" = Some (VNum 2) /\
  distinct_shared_products d c1 c2 = 1 /\
  common_products d c1 c2 = 2 /\
  In (Rel SIMILAR_TO (nid c1) (nid c2) {[ "strength" := of_nat 2 ]}) (rels d).
Proof.
  vm_compute. repeat (split; [reflexivity|]). auto 10.
Qed.

(** C5 at a failing input: customer 1 alone orders product 10 twice and
    product 20 once.  One distinct customer ordered both products, yet
    the two MATCH clauses leave two rows for the pair, and the run
    stores a CO_PURCHASED edge with frequency 2. *)
Theorem co_purchase_counts_order_pairs :
  let d := fst (Sample.run Sample.empty
                  [Sample.customer 1] [Sample.product 10; Sample.product 20]
                  Sample.single_buyer_orders) in
  let p1 := Sample.pick (labelled d Product) 0 in
  let p2 := Sample.pick (labelled d Product) 1 in
  labelled d Product = [p1; p2] /\
  prop p1 "id" = Some (VNum 10) /\ prop p2 "id" = Some (VNum 20) /\
  distinct_shared_customers d p1 p2 = 1 /\
  co_purchases d p1 p2 = 2 /\
  In (Rel CO_PURCHASED (nid p1) (nid p2) {[ "frequency" := of_nat 2 ]}) (rels d).
Proof.
  vm_compute. repeat (split; [reflexivity|]). auto 10.
Qed.

(** ** Metrics *)

Lemma mapM_lookup {A B} (f : A -> result B) (l : list A) (l' : list B) :
  mapM f l = Ok l' ->
  forall i a, l !! i = Some a -> exists b, l' !! i = Some b /\ f a = Ok b.
Proof.
  revert l'. induction l as [|x l IH]; simpl; intros l' H i a Hi.
  - rewrite lookup_nil in Hi. discriminate.
  - destruct (f x) as [b|e] eqn:Hx; simpl in H; [|discriminate].
    destruct (mapM f l) as [bs|e] eqn:Hl; simpl in H; [|discriminate].
    inversion H; subst. destruct i as [|i]; simpl in *.
    + inversion Hi; subst. eauto.
    + eapply IH; eauto.
Qed.

Lemma mapM_total {A B} (f : A -> result B) (l : list A) :
  (forall a, In a l -> exists b, f a = Ok b) -> exists l', mapM f l = Ok l'.
Proof.
  induction l as [|x l IH]; simpl; intros H; [eauto|].
  destruct (H x (or_introl eq_refl)) as [b ->]. simpl.
  destruct IH as [bs ->]; [intros a Ha; apply H; now right|]. simpl. eauto.
Qed.

Lemma set_prop_lookup_ne (k k' : string) (v : option value)
      (m : gmap string value) :
  k <> k' -> set_prop k v m !! k' = m !! k'.
Proof.
  intros Hne. destruct v; simpl.
  - now apply lookup_insert_ne.
  - now apply lookup_delete_ne.
Qed.

Lemma set_prop_lookup (k : string) (v : option value) (m : gmap string value) :
  set_prop k v m !! k = v.
Proof.
  destruct v; simpl; [apply lookup_insert_eq | apply lookup_delete_eq].
Qed.

Ltac props_lookup :=
  repeat first [ rewrite set_prop_lookup_ne by discriminate
               | rewrite lookup_insert_ne by discriminate ];
  first [ apply set_prop_lookup | apply lookup_insert_eq ].

(** What the SET clause leaves on a customer with at least one order. *)
Lemma set_metrics_props (c c' : node) (os : list node) :
  set_metrics c os = Ok c' ->
  exists qs, mapM number (non_null "total_amount" os) = Ok qs /\
    nid c' = nid c /\ nlabel c' = nlabel c /\
    prop c' "total_orders" = Some (of_nat (length os)) /\
    prop c' "total_spent" = Some (VNum (total qs)) /\
    prop c' "avg_order_value" = average qs /\
    prop c' "last_order_date" = maximum (non_null "order_date" os) /\
    prop c' "customer_tier" = Some (VStr (customer_tier (total qs))).
Proof.
  unfold set_metrics.
  destruct (mapM number (non_null "total_amount" os)) as [qs|e]; cbn [rbind];
    [|discriminate].
  intros H. injection H as <-. exists qs. unfold prop; cbn [nprops nid nlabel].
  repeat split; props_lookup.
Qed.

Lemma customer_tier_cases (t : Q) :
  ((5000 < t)%Q -> customer_tier t = "VIP") /\
  ((2000 < t)%Q /\ (t <= 5000)%Q -> customer_tier t = "Premium") /\
  ((t <= 2000)%Q -> customer_tier t = "Standard").
Proof.
  unfold customer_tier.
  destruct (Qltb 5000 t) eqn:E1; [apply Qltb_lt in E1 | apply Qltb_ge in E1];
    (destruct (Qltb 2000 t) eqn:E2; [apply Qltb_lt in E2 | apply Qltb_ge in E2]);
    repeat split; intros; try reflexivity; exfalso; lra.
Qed.

Lemma update_customer_lookup (d d' : db) (i : nat) (c : node) :
  calculate_customer_metrics d = Ok d' ->
  nodes d !! i = Some c ->
  exists c', nodes d' !! i = Some c' /\ update_customer d c = Ok c'.
Proof.
  unfold calculate_customer_metrics.
  destruct (mapM (update_customer d) (nodes d)) as [ns|e] eqn:E; simpl;
    [|discriminate].
  intros H Hi. inversion H; subst; simpl. eapply mapM_lookup; eauto.
Qed.

(** C4: a customer with at least one order gets its tier from the stored
    total_spent alone, by the two strict thresholds; 5000 itself is
    Premium and 5000.01 is VIP. *)
Theorem tier_from_total_spent (d d' : db) (i : nat) (c : node) :
  calculate_customer_metrics d = Ok d' ->
  nodes d !! i = Some c ->
  has_label Customer c = true ->
  orders_of d c <> [] ->
  exists c' t tier,
    nodes d' !! i = Some c' /\ nid c' = nid c /\
    prop c' "total_spent" = Some (VNum t) /\
    prop c' "customer_tier" = Some (VStr tier) /\
    ((5000 < t)%Q -> tier = "VIP") /\
    ((2000 < t)%Q /\ (t <= 5000)%Q -> tier = "Premium") /\
    ((t <= 2000)%Q -> tier = "Standard") /\
    ((t == 5000)%Q -> tier = "Premium") /\
    ((t == 5000.01)%Q -> tier = "VIP").
Proof.
  intros Hrun Hi Hc Hos.
  destruct (update_customer_lookup d d' i c Hrun Hi) as (c' & Hi' & Hup).
  unfold update_customer in Hup. rewrite Hc in Hup.
  destruct (orders_of d c) as [|o os] eqn:Eos; [congruence|].
  apply set_metrics_props in Hup
    as (qs & _ & Hid & _ & _ & Hspent & _ & _ & Htier).
  exists c', (total qs), (customer_tier (total qs)).
  destruct (customer_tier_cases (total qs)) as (Hvip & Hprem & Hstd).
  repeat split; try assumption.
  - intros E. apply Hprem. lra.
  - intros E. apply Hvip. lra.
Qed.


Lemma tier_from_total_spent_witness :
  exists d' c2 c3,
    calculate_customer_metrics Sample.scenario = Ok d' /\
    nodes d' !! 1 = Some c2 /\
    prop c2 "total_spent" = Some (VNum 5000) /\
    prop c2 "customer_tier" = Some (VStr "Premium") /\
    nodes d' !! 2 = Some c3 /\
    prop c3 "total_spent" = Some (VNum 5000.01) /\
    prop c3 "customer_tier" = Some (VStr "VIP").
Proof.
  set (d := Sample.scenario).
  set (d' := match calculate_customer_metrics d with
             | Ok x => x
             | Err _ => d
             end).
  set (n2 := Sample.pick (nodes d) 1).
  set (n3 := Sample.pick (nodes d) 2).
  assert (Hrun : calculate_customer_metrics d = Ok d') by (vm_compute; reflexivity).
  assert (H2 : nodes d !! 1 = Some n2) by (vm_compute; reflexivity).
  assert (H3 : nodes d !! 2 = Some n3) by (vm_compute; reflexivity).
  assert (L2 : has_label Customer n2 = true) by (vm_compute; reflexivity).
  assert (L3 : has_label Customer n3 = true) by (vm_compute; reflexivity).
  assert (O2 : orders_of d n2 <> []) by (vm_compute; discriminate).
  assert (O3 : orders_of d n3 <> []) by (vm_compute; discriminate).
  destruct (tier_from_total_spent d d' 1 n2 Hrun H2 L2 O2)
    as (c2 & t2 & tier2 & I2 & _ & S2 & T2 & _ & _ & _ & P2 & _).
  destruct (tier_from_total_spent d d' 2 n3 Hrun H3 L3 O3)
    as (c3 & t3 & tier3 & I3 & _ & S3 & T3 & _ & _ & _ & _ & P3).
  assert (K2 : nodes d' !! 1 = Some (Sample.pick (nodes d') 1))
    by (vm_compute; reflexivity).
  assert (K3 : nodes d' !! 2 = Some (Sample.pick (nodes d') 2))
    by (vm_compute; reflexivity).
  assert (V2 : prop (Sample.pick (nodes d') 1) "total_spent" = Some (VNum 5000))
    by (vm_compute; reflexivity).
  assert (V3 : prop (Sample.pick (nodes d') 2) "total_spent" = Some (VNum 5000.01))
    by (vm_compute; reflexivity).
  assert (E2 : c2 = Sample.pick (nodes d') 1) by congruence.
  assert (E3 : c3 = Sample.pick (nodes d') 2) by congruence.
  subst c2 c3.
  assert (t2 = 5000%Q) by congruence.
  assert (t3 = 5000.01%Q) by congruence.
  subst t2 t3.
  rewrite (P2 (Qeq_refl _)) in T2. rewrite (P3 (Qeq_refl _)) in T3.
  exists d', (Sample.pick (nodes d') 1), (Sample.pick (nodes d') 2).
  repeat (split; [assumption|]). assumption.
Defined.

(** C2, as the code has it: a customer without an order forms no group
    of the MATCH, so the SET never reaches its node: metrics computation
    leaves the node exactly as it was, and every metric property that was
    absent before (tier and total_orders included) is absent after. *)
Theorem zero_order_customer_untouched (d d' : db) (i : nat) (c : node) :
  calculate_customer_metrics d = Ok d' ->
  nodes d !! i = Some c ->
  orders_of d c = [] ->
  nodes d' !! i = Some c.
Proof.
  intros Hrun Hi Hos.
  destruct (update_customer_lookup d d' i c Hrun Hi) as (c' & Hi' & Hup).
  unfold update_customer in Hup. rewrite Hos in Hup.
  destruct (has_label Customer c); congruence.
Qed.

Lemma zero_order_customer_untouched_witness :
  exists d', calculate_customer_metrics Sample.sparse = Ok d' /\
             nodes d' !! 1 = Some (Sample.pick (nodes Sample.sparse) 1).
Proof.
  set (d := Sample.sparse).
  set (d' := match calculate_customer_metrics d with
             | Ok x => x
             | Err _ => d
             end).
  assert (Hrun : calculate_customer_metrics d = Ok d') by (vm_compute; reflexivity).
  exists d'. split; [exact Hrun|].
  apply (zero_order_customer_untouched d d' 1 _ Hrun); vm_compute; reflexivity.
Defined.

(** C2, as stated, fails: after a complete run over a table in which
    customer 4 has no order, the node of customer 4 carries neither a
    customer_tier nor a total_orders property. *)
Lemma zero_order_customer_has_no_tier :
  let r := Sample.run Sample.empty [Sample.customer 1; Sample.customer 4]
                      [Sample.product 10] Sample.sparse_orders in
  let c := Sample.pick (nodes (fst r)) 1 in
  snd r = Done /\
  has_label Customer c = true /\
  prop c "id" = Some (VNum 4) /\
  orders_of (fst r) c = [] /\
  prop c "customer_tier" = None /\
  prop c "total_orders" = None /\
  prop c "customer_tier" <> Some (VStr "Standard") /\
  prop c "total_orders" <> Some (of_nat 0).
Proof.
  vm_compute. repeat (split; [reflexivity|]). split; discriminate.
Qed.

Lemma amounts_of_numeric (os : list node) :
  forallb amount_numeric os = true ->
  mapM number (non_null "total_amount" os) = Ok (amounts os).
Proof.
  induction os as [|o os IH]; [reflexivity|].
  cbn [forallb]. rewrite andb_true_iff. intros [Ho Hos].
  unfold non_null, amounts in *. cbn [omap list_omap].
  unfold amount_numeric in Ho.
  destruct (prop o "total_amount") as [[q|s|z|z t]|]; try discriminate.
  - cbn [mapM number rbind]. rewrite (IH Hos). reflexivity.
  - apply IH, Hos.
Qed.

Lemma update_customer_total (d : db) :
  amounts_numeric d = true ->
  forall c, In c (nodes d) -> exists c', update_customer d c = Ok c'.
Proof.
  intros Hnum c Hc. unfold update_customer.
  destruct (has_label Customer c) eqn:Hl; [|eauto].
  destruct (orders_of d c) as [|o os] eqn:Hos; [eauto|].
  unfold set_metrics. rewrite amounts_of_numeric; [cbn [rbind]; eauto|].
  unfold amounts_numeric in Hnum. rewrite forallb_forall in Hnum.
  rewrite <- Hos. apply Hnum. unfold labelled. apply filter_In. auto.
Qed.

(** C7, as the code has it: an order without a total_amount is no error.
    When every amount that is present is a number, metrics computation
    succeeds; the order is counted in total_orders, and total_spent is
    the sum of the amounts that are present. *)
Theorem null_amounts_are_skipped (d : db) :
  amounts_numeric d = true ->
  exists d',
    calculate_customer_metrics d = Ok d' /\
    forall i c,
      nodes d !! i = Some c ->
      has_label Customer c = true ->
      orders_of d c <> [] ->
      exists c',
        nodes d' !! i = Some c' /\
        prop c' "total_orders" = Some (of_nat (length (orders_of d c))) /\
        prop c' "total_spent" = Some (VNum (total (amounts (orders_of d c)))).
Proof.
  intros Hnum.
  destruct (mapM_total (update_customer d) (nodes d) (update_customer_total d Hnum))
    as [ns Hns].
  exists (DB ns (rels d) (constraints d)).
  assert (Hrun : calculate_customer_metrics d = Ok (DB ns (rels d) (constraints d))).
  { unfold calculate_customer_metrics. rewrite Hns. reflexivity. }
  split; [exact Hrun|]. intros i c Hi Hl Hos.
  destruct (update_customer_lookup _ _ i c Hrun Hi) as (c' & Hi' & Hup).
  exists c'. split; [exact Hi'|].
  unfold update_customer in Hup. rewrite Hl in Hup.
  destruct (orders_of d c) as [|o os] eqn:Eos; [congruence|].
  apply set_metrics_props in Hup as (qs & Hqs & _ & _ & Hn & Hs & _).
  rewrite amounts_of_numeric in Hqs.
  - injection Hqs as <-. auto.
  - unfold amounts_numeric in Hnum. rewrite forallb_forall in Hnum.
    rewrite <- Eos. apply Hnum. unfold labelled. apply filter_In.
    split; [|exact Hl]. apply list_elem_of_In. eapply list_elem_of_lookup_2, Hi.
Qed.

Lemma null_amounts_are_skipped_witness :
  let d := Sample.sparse in
  let c := Sample.pick (nodes d) 0 in
  exists d' c',
    calculate_customer_metrics d = Ok d' /\
    nodes d' !! 0 = Some c' /\
    prop c' "total_orders" = Some (of_nat (length (orders_of d c))) /\
    prop c' "total_spent" = Some (VNum (total (amounts (orders_of d c)))).
Proof.
  intros d c.
  assert (Hnum : amounts_numeric d = true) by (vm_compute; reflexivity).
  destruct (null_amounts_are_skipped d Hnum) as (d' & Hrun & H).
  assert (H0 : nodes d !! 0 = Some c) by (vm_compute; reflexivity).
  assert (Hl : has_label Customer c = true) by (vm_compute; reflexivity).
  assert (Hos : orders_of d c <> []) by (vm_compute; discriminate).
  destruct (H 0 c H0 Hl Hos) as (c' & Hc').
  exists d', c'. split; [exact Hrun | exact Hc'].
Defined.

(** C7, as stated, fails: customer 1 has an order of 100 and an order
    without total_amount; the run completes, counts both orders, and
    stores total_spent = 100 and a tier computed from it. *)
Lemma null_amount_raises_nothing :
  let r := Sample.run Sample.empty [Sample.customer 1; Sample.customer 4]
                      [Sample.product 10] Sample.sparse_orders in
  let c := Sample.pick (nodes (fst r)) 0 in
  let o := Sample.pick (orders_of (fst r) c) 1 in
  snd r = Done /\
  In o (orders_of (fst r) c) /\
  prop o "total_amount" = None /\
  prop c "total_orders" = Some (of_nat 2) /\
  prop c "total_spent" = Some (VNum 100) /\
  prop c "customer_tier" = Some (VStr "Standard").
Proof.
  vm_compute. split; [reflexivity|]. split; [auto|].
  repeat (split; [reflexivity|]). reflexivity.
Qed.

(** ** Loading *)

Lemma Ok_inj {A} (a b : A) : Ok a = Ok b -> a = b.
Proof. congruence. Qed.

Lemma foldM_invariant {A S} (f : S -> A -> result S) (P : S -> Prop) :
  (forall s a s', f s a = Ok s' -> P s -> P s') ->
  forall l s s', foldM f s l = Ok s' -> P s -> P s'.
Proof.
  intros Hf. induction l as [|a l IH]; simpl; intros s s' H Hs.
  - now inversion H; subst.
  - destruct (f s a) as [s1|e] eqn:E; simpl in H; [|discriminate].
    eapply IH; eauto.
Qed.

Lemma create_node_inv (d d' : db) (l : label) (ps : gmap string value) (n : node) :
  create_node d l ps = Ok (d', n) ->
  n = Node (fresh d) l ps /\
  d' = DB (nodes d ++ [n]) (rels d) (constraints d).
Proof.
  unfold create_node.
  destruct (constrained d l && existsb _ (nodes d)); [discriminate|].
  intros H. injection H as <- <-. auto.
Qed.

Lemma filter_filter_sub {A} (f g : A -> bool) (l : list A) :
  (forall x, f x = true -> g x = true) ->
  List.filter f (List.filter g l) = List.filter f l.
Proof.
  intros Hfg. induction l as [|x l IH]; simpl; [reflexivity|].
  destruct (g x) eqn:Hg; simpl.
  - now rewrite IH.
  - destruct (f x) eqn:Hf; [|exact IH]. rewrite (Hfg x Hf) in Hg. discriminate.
Qed.

Lemma matching_parties (d : db) (l : label) (v : option value) :
  (forall n, has_label l n = true -> is_party n = true) ->
  List.filter (fun n => has_label l n && matches v (prop n "id")) (nodes d)
  = List.filter (fun n => has_label l n && matches v (prop n "id")) (parties d).
Proof.
  intros Hl. unfold parties. symmetry. apply filter_filter_sub.
  intros x Hx. apply andb_true_iff in Hx as [Hx _]. now apply Hl.
Qed.

Lemma customer_is_party (n : node) : has_label Customer n = true -> is_party n = true.
Proof. unfold is_party. now intros ->. Qed.

Lemma product_is_party (n : node) : has_label Product n = true -> is_party n = true.
Proof. unfold is_party. intros ->. apply orb_true_r. Qed.

Lemma order_endpoints_parties (d d' : db) (order : row) :
  parties d' = parties d ->
  order_endpoints d' order = order_endpoints d order.
Proof.
  intros Hp. unfold order_endpoints.
  rewrite !(matching_parties _ Customer _ customer_is_party),
          !(matching_parties _ Product _ product_is_party).
  now rewrite Hp.
Qed.

Lemma existsb_false_filter {A} (f : A -> bool) (l : list A) :
  existsb f l = false -> List.filter f l = [].
Proof.
  intros H. apply filter_none. intros x Hx.
  destruct (f x) eqn:E; [|reflexivity].
  assert (existsb f l = true) by (apply existsb_exists; eauto). congruence.
Qed.

Lemma flat_map_nil {A B} (f : A -> list B) (l : list A) :
  (forall x, f x = []) -> flat_map f l = [].
Proof.
  intros H. induction l as [|x l IH]; simpl; [reflexivity|]. now rewrite H, IH.
Qed.

Lemma dangling_no_endpoints (d : db) (order : row) :
  dangling d order = true -> order_endpoints d order = [].
Proof.
  unfold dangling, customer_present, product_present, order_endpoints.
  rewrite orb_true_iff, !negb_true_iff. intros [H|H].
  - now rewrite (existsb_false_filter _ _ H).
  - rewrite (existsb_false_filter _ _ H). now apply flat_map_nil.
Qed.

Section Loading.

Variable parse_date : string -> option Z.

Lemma create_order_parties (order : row) (d d' : db) (cp : node * node) :
  create_order parse_date order d cp = Ok d' -> parties d' = parties d.
Proof.
  unfold create_order.
  destruct (date parse_date (order !! "order_date")) as [dt|e]; cbn [rbind];
    [|discriminate].
  destruct (create_node d Order _) as [[d1 o]|e] eqn:E; cbn [rbind];
    [|discriminate].
  apply create_node_inv in E as [-> ->].
  intros H. injection H as <-. unfold parties, create_rel; cbn [nodes fst snd].
  rewrite List.filter_app. cbn. apply app_nil_r.
Qed.

Lemma load_order_parties (d d' : db) (order : row) :
  load_order parse_date d order = Ok d' -> parties d' = parties d.
Proof.
  unfold load_order. intros H.
  apply (foldM_invariant (create_order parse_date order)
           (fun s => parties s = parties d)) in H; auto.
  intros s a s' Hs Hp. rewrite <- Hp. now apply create_order_parties in Hs.
Qed.

Lemma load_orders_skip (d : db) (orders : list row) :
  forall d', parties d' = parties d ->
  foldM (load_order parse_date) d' orders
  = foldM (load_order parse_date) d'
          (List.filter (fun o => negb (dangling d o)) orders).
Proof.
  induction orders as [|o orders IH]; intros d' Hp; [reflexivity|].
  cbn [List.filter foldM].
  destruct (dangling d o) eqn:Hd; cbn [negb foldM].
  - unfold load_order at 1.
    rewrite (order_endpoints_parties d d' o Hp), (dangling_no_endpoints d o Hd).
    cbn [foldM rbind]. now apply IH.
  - destruct (load_order parse_date d' o) as [d''|e] eqn:E; cbn [rbind];
      [|reflexivity].
    apply IH. rewrite <- Hp. now apply load_order_parties in E.
Qed.

(** C8, as the code has it: load_orders knows no DanglingReference.  An
    order whose customer_id or product_id matches no stored node leaves
    no row after the MATCH clauses and is dropped without a trace; the
    load behaves exactly as on the table without the dangling orders. *)
Theorem load_orders_drops_dangling (d : db) (orders : list row) :
  load_orders parse_date orders d
  = load_orders parse_date
                (List.filter (fun o => negb (dangling d o)) orders) d.
Proof. unfold load_orders. now apply load_orders_skip. Qed.

End Loading.

(** C8, as stated, fails: in a table of three orders, one naming an
    unknown customer and one an unknown product, the load raises
    nothing, stores the sound order, and drops the other two. *)
Lemma dangling_order_raises_nothing :
  let d := Sample.load [Sample.customer 1] [Sample.product 10] [] in
  let r := load_orders Sample.no_parse Sample.dangling_orders d in
  map (dangling d) Sample.dangling_orders = [false; true; true] /\
  exists d', r = Ok d' /\
             map (fun o => prop o "id") (labelled d' Order) = [Some (VNum 1)].
Proof.
  split; [vm_compute; reflexivity|].
  eexists. split; vm_compute; reflexivity.
Qed.

(** ** The run as a whole *)

Lemma clear_database_wf (d : db) :
  wf_db d -> clear_database d = DB [] [] (constraints d).
Proof.
  unfold wf_db, clear_database. intros Hwf. f_equal.
  apply filter_none. intros r Hr. rewrite forallb_forall in Hwf.
  specialize (Hwf r Hr). apply andb_true_iff in Hwf as [Hs _].
  unfold attached. now rewrite Hs.
Qed.

Lemma run_steps_app (a b : list step) (d : db) :
  run_steps (a ++ b) d
  = match run_steps a d with
    | (d', Done) => run_steps b d'
    | failed => failed
    end.
Proof.
  revert d. induction a as [|s a IH]; intros d; cbn [app run_steps].
  - reflexivity.
  - destruct (s d) as [d' [|e]]; [apply IH | reflexivity].
Qed.

Lemma commit_preserves (P : db -> Prop) (q : db -> result db) :
  (forall d d', q d = Ok d' -> P d -> P d') -> preserves P (commit q).
Proof.
  intros Hq d Hd. unfold commit. destruct (q d) as [d'|e] eqn:E; cbn [fst]; eauto.
Qed.

Lemma always_preserves (P : db -> Prop) (f : db -> db) :
  (forall d, P d -> P (f d)) -> preserves P (always f).
Proof. intros Hf d Hd. unfold always; cbn [fst]. auto. Qed.

Lemma run_steps_preserves (P : db -> Prop) (ss : list step) :
  Forall (preserves P) ss -> preserves P (run_steps ss).
Proof.
  induction 1 as [|s ss Hs _ IH]; intros d Hd; cbn [run_steps]; [exact Hd|].
  specialize (Hs d Hd). destruct (s d) as [d' [|e]]; cbn [fst] in *.
  - now apply IH.
  - exact Hs.
Qed.

Lemma props_of_lookup_None (l : list (string * option value)) (k : string) :
  existsb (String.eqb k) (map fst l) = false -> props_of l !! k = None.
Proof.
  induction l as [|[k' v] l IH]; cbn [props_of fold_right map existsb fst snd].
  - intros _. apply lookup_empty.
  - rewrite orb_false_iff. intros [Hk Hl].
    rewrite set_prop_lookup_ne; [now apply IH|].
    intros ->. now rewrite String.eqb_refl in Hk.
Qed.

Lemma metric_free_add_node (d : db) (n : node) :
  metric_free d ->
  (forall k, In k metric_keys -> prop n k = None) ->
  metric_free (DB (nodes d ++ [n]) (rels d) (constraints d)).
Proof.
  intros Hd Hn m k Hm Hk. cbn [nodes] in Hm. apply in_app_or in Hm as [Hm|[<-|[]]]; auto.
Qed.

Lemma metric_free_nodes (d d' : db) :
  nodes d' = nodes d -> metric_free d -> metric_free d'.
Proof. unfold metric_free. intros ->. auto. Qed.

(** A map literal that names no metric key holds none. *)
Ltac absent_metric H :=
  unfold props_of; cbn [fold_right fst snd];
  cbn [metric_keys In] in H;
  repeat (destruct H as [<-|H];
          [ repeat (rewrite set_prop_lookup_ne by discriminate);
            first [ apply lookup_empty | apply lookup_singleton_ne; discriminate ]
          | ]);
  destruct H.

Lemma create_constraints_nodes (d : db) :
  nodes (create_constraints d) = nodes d.
Proof.
  unfold create_constraints.
  assert (H : forall ls d, nodes (fold_left (fun d l =>
              match create_constraint d l with Ok d' => d' | Err _ => d end) ls d)
              = nodes d).
  { induction ls as [|l ls IH]; intros d0; cbn [fold_left]; [reflexivity|].
    rewrite IH. unfold create_constraint.
    destruct (constrained d0 l); [reflexivity|].
    destruct (distinct_ids (labelled d0 l)); reflexivity. }
  apply H.
Qed.

Lemma link_nodes (t : rtype) (p : node) (cs : list node) (d : db) :
  nodes (fold_left (fun d c => if linked d t p c then d else create_rel d t p c)
                   cs d) = nodes d.
Proof.
  revert d. induction cs as [|c cs IH]; intros d; cbn [fold_left]; [reflexivity|].
  rewrite IH. now destruct (linked d t p c).
Qed.

Section Run.

Variable parse_date : string -> option Z.
Variable gds_project : db -> bool.
Variable gds : string -> db -> option (node -> value).

Lemma create_customer_metric_free (d d' : db) (customer : row) :
  create_customer parse_date d customer = Ok d' -> metric_free d -> metric_free d'.
Proof.
  unfold create_customer.
  destruct (date parse_date _) as [dt|e]; cbn [rbind]; [|discriminate].
  destruct (create_node d Customer _) as [[d1 n]|e] eqn:E; cbn [rbind fst];
    [|discriminate].
  apply create_node_inv in E as [-> ->]. intros H Hd. injection H as <-.
  apply metric_free_add_node; [exact Hd|]. intros k Hk.
  unfold prop; cbn [nprops]. absent_metric Hk.
Qed.

Lemma create_product_metric_free (d d' : db) (product : row) :
  create_product parse_date d product = Ok d' -> metric_free d -> metric_free d'.
Proof.
  unfold create_product.
  destruct (date parse_date _) as [dt|e]; cbn [rbind]; [|discriminate].
  destruct (create_node d Product _) as [[d1 n]|e] eqn:E; cbn [rbind fst];
    [|discriminate].
  apply create_node_inv in E as [-> ->]. intros H Hd. injection H as <-.
  apply metric_free_add_node; [exact Hd|]. intros k Hk.
  unfold prop; cbn [nprops]. absent_metric Hk.
Qed.

Lemma merge_category_metric_free (d d' : db) (p : node) :
  merge_category d p = Ok d' -> metric_free d -> metric_free d'.
Proof.
  unfold merge_category. destruct (prop p "category") as [v|]; [|discriminate].
  destruct (List.filter _ (nodes d)) as [|c cs].
  - destruct (create_node d Category _) as [[d1 n]|e] eqn:E; cbn [rbind fst snd];
      [|discriminate].
    apply create_node_inv in E as [-> ->]. intros H Hd. apply Ok_inj in H as <-.
    eapply metric_free_nodes; [apply link_nodes|].
    apply metric_free_add_node; [exact Hd|]. intros k Hk.
    unfold prop; cbn [nprops]. absent_metric Hk.
  - cbn [rbind fst snd]. intros H Hd. apply Ok_inj in H as <-.
    eapply metric_free_nodes; [apply link_nodes | exact Hd].
Qed.

Lemma create_order_metric_free (order : row) (d d' : db) (cp : node * node) :
  create_order parse_date order d cp = Ok d' -> metric_free d -> metric_free d'.
Proof.
  unfold create_order.
  destruct (date parse_date _) as [dt|e]; cbn [rbind]; [|discriminate].
  destruct (create_node d Order _) as [[d1 n]|e] eqn:E; cbn [rbind fst snd];
    [|discriminate].
  apply create_node_inv in E as [-> ->]. intros H Hd. injection H as <-.
  eapply (metric_free_nodes (DB (nodes d ++ [_]) (rels d) (constraints d)));
    [reflexivity|].
  apply metric_free_add_node; [exact Hd|]. intros k Hk.
  unfold prop; cbn [nprops]. absent_metric Hk.
Qed.

(** The steps of main between clearing and the metrics. *)
Lemma main_steps (d : db) (customers_df products_df orders_df : list row) :
  main parse_date gds_project gds d customers_df products_df orders_df
  = run_steps
      ([ always create_constraints;
         commit (load_customers parse_date customers_df);
         load_products parse_date products_df;
         commit (load_orders parse_date orders_df);
         always create_customer_similarity_relationships;
         always create_product_co_purchase_relationships ]
       ++ [ commit calculate_customer_metrics;
            always (run_graph_analytics gds_project gds) ])
      (clear_database d).
Proof. reflexivity. Qed.

(** Every step before the metrics keeps the graph free of metrics. *)
Lemma loading_preserves_metric_free (customers_df products_df orders_df : list row) :
  Forall (preserves metric_free)
    [ always create_constraints;
      commit (load_customers parse_date customers_df);
      load_products parse_date products_df;
      commit (load_orders parse_date orders_df);
      always create_customer_similarity_relationships;
      always create_product_co_purchase_relationships ].
Proof.
  repeat apply List.Forall_cons; try apply List.Forall_nil.
  - apply always_preserves. intros d.
    apply metric_free_nodes, create_constraints_nodes.
  - apply commit_preserves. intros d d'.
    apply (foldM_invariant (create_customer parse_date) metric_free).
    intros s a s'. apply create_customer_metric_free.
  - apply run_steps_preserves.
    repeat apply List.Forall_cons; try apply List.Forall_nil.
    + apply commit_preserves. intros d d'.
      apply (foldM_invariant (create_product parse_date) metric_free).
      intros s a s'. apply create_product_metric_free.
    + apply commit_preserves. intros d d'. unfold merge_categories.
      apply (foldM_invariant merge_category metric_free).
      intros s a s'. apply merge_category_metric_free.
  - apply commit_preserves. intros d d'.
    apply (foldM_invariant (load_order parse_date) metric_free).
    intros s a s'. unfold load_order.
    apply (foldM_invariant (create_order parse_date a) metric_free).
    intros s0 a0 s0'. apply create_order_metric_free.
  - apply always_preserves. intros d. now apply metric_free_nodes.
  - apply always_preserves. intros d. now apply metric_free_nodes.
Qed.

(** C10: clear_database leaves no node and no relationship, and it is
    the first step of main: every run continues from the empty graph,
    so nothing stored before the run takes part in it or survives it,
    whether the run completes or fails. *)
Theorem run_starts_from_empty_graph
        (d : db) (customers_df products_df orders_df : list row) :
  wf_db d ->
  nodes (clear_database d) = [] /\
  rels (clear_database d) = [] /\
  main parse_date gds_project gds d customers_df products_df orders_df
  = run_steps [ always create_constraints;
                commit (load_customers parse_date customers_df);
                load_products parse_date products_df;
                commit (load_orders parse_date orders_df);
                always create_customer_similarity_relationships;
                always create_product_co_purchase_relationships;
                commit calculate_customer_metrics;
                always (run_graph_analytics gds_project gds) ]
              (DB [] [] (constraints d)).
Proof.
  intros Hwf. rewrite <- (clear_database_wf d Hwf). repeat split.
  rewrite (clear_database_wf d Hwf). reflexivity.
Qed.

End Run.




Section FailedRuns.

Variable parse_date : string -> option Z.
Variable gds_project : db -> bool.
Variable gds : string -> db -> option (node -> value).
Variable lost : nat -> bool.
Variable lost_constraint : label -> bool.







End FailedRuns.

Lemma run_attempts_none_lost (ss : list step) (d : db) :
  run_attempts (map (pair false) ss) d
  = (fst (run_steps ss d), ending_of (snd (run_steps ss d))).
Proof.
  revert d. induction ss as [|s ss IH]; intros d; cbn [map run_attempts run_steps].
  - reflexivity.
  - unfold attempt. destruct (s d) as [d' [|e]]; cbn [fst snd ending_of];
      [apply IH | reflexivity].
Qed.

Lemma run_steps_nested (b c : list step) (d : db) :
  run_steps (run_steps b :: c) d = run_steps (b ++ c) d.
Proof.
  rewrite run_steps_app. cbn [run_steps].
  destruct (run_steps b d) as [d' [|e]]; reflexivity.
Qed.

Lemma main_flat
      (parse_date : string -> option Z) (gds_project : db -> bool)
      (gds : string -> db -> option (node -> value))
      (d : db) (customers_df products_df orders_df : list row) :
  main parse_date gds_project gds d customers_df products_df orders_df
  = run_steps
      ([ always clear_database; always create_constraints;
         commit (load_customers parse_date customers_df) ]
       ++ [ commit (create_products parse_date products_df);
            commit merge_categories ]
       ++ [ commit (load_orders parse_date orders_df);
            always create_customer_similarity_relationships;
            always create_product_co_purchase_relationships;
            commit calculate_customer_metrics;
            always (run_graph_analytics gds_project gds) ]) d.
Proof.
  change (main parse_date gds_project gds d customers_df products_df orders_df)
    with (run_steps
            ([ always clear_database; always create_constraints;
               commit (load_customers parse_date customers_df) ]
             ++ run_steps [ commit (create_products parse_date products_df);
                            commit merge_categories ]
                :: [ commit (load_orders parse_date orders_df);
                     always create_customer_similarity_relationships;
                     always create_product_co_purchase_relationships;
                     commit calculate_customer_metrics;
                     always (run_graph_analytics gds_project gds) ]) d).
  rewrite !(run_steps_app [ always clear_database; always create_constraints;
                            commit (load_customers parse_date customers_df) ]).
  destruct (run_steps _ d) as [d' [|e]]; [apply run_steps_nested | reflexivity].
Qed.

(** With no statement lost, the run statement by statement is [main]. *)
Lemma main_without_failures
      (parse_date : string -> option Z) (gds_project : db -> bool)
      (gds : string -> db -> option (node -> value))
      (d : db) (customers_df products_df orders_df : list row) :
  main_with_failures parse_date gds_project gds (fun _ => false) (fun _ => false)
                     d customers_df products_df orders_df
  = (fst (main parse_date gds_project gds d customers_df products_df orders_df),
     ending_of
       (snd (main parse_date gds_project gds d customers_df products_df orders_df))).
Proof.
  rewrite main_flat, <- run_attempts_none_lost. reflexivity.
Qed.



Lemma run_starts_from_empty_graph_witness :
  let d0 := fst Sample.scenario_run in
  wf_db d0 /\
  nodes (clear_database d0) = [] /\
  rels (clear_database d0) = [] /\
  main Sample.no_parse Sample.no_projection Sample.no_gds d0
       [Sample.customer 1; Sample.customer 1] [] []
  = run_steps [ always create_constraints;
                commit (load_customers Sample.no_parse
                          [Sample.customer 1; Sample.customer 1]);
                load_products Sample.no_parse [];
                commit (load_orders Sample.no_parse []);
                always create_customer_similarity_relationships;
                always create_product_co_purchase_relationships;
                commit calculate_customer_metrics;
                always (run_graph_analytics Sample.no_projection Sample.no_gds) ]
              (DB [] [] (constraints d0)).
Proof.
  intros d0.
  assert (Hwf : wf_db d0) by (unfold wf_db; vm_compute; reflexivity).
  split; [exact Hwf|].
  exact (run_starts_from_empty_graph _ _ _ d0 _ _ _ Hwf).
Defined.

(** * Further properties of the pipeline *)

(** ** Metrics *)

Lemma mapM_length {A B} (f : A -> result B) (l : list A) (l' : list B) :
  mapM f l = Ok l' -> length l' = length l.
Proof.
  revert l'. induction l as [|a l IH]; cbn [mapM]; intros l' H.
  - apply Ok_inj in H as <-. reflexivity.
  - destruct (f a) as [b|e]; cbn [rbind] in H; [|discriminate].
    destruct (mapM f l) as [bs|e]; cbn [rbind] in H; [|discriminate].
    apply Ok_inj in H as <-. cbn [length]. now rewrite (IH bs).
Qed.

Lemma mapM_error {A B} (f : A -> result B) (l : list A) (a : A) (e0 e1 : error) :
  (forall x e, f x = Err e -> e = e0) ->
  In a l -> f a = Err e1 -> mapM f l = Err e0.
Proof.
  intros Hall. induction l as [|x l IH]; cbn [mapM In]; intros Ha Hf; [destruct Ha|].
  destruct (f x) as [b|e] eqn:Ex; cbn [rbind].
  - destruct Ha as [->|Ha]; [congruence|]. now rewrite (IH Ha Hf).
  - now rewrite (Hall x e Ex).
Qed.

Lemma forallb_false {A} (f : A -> bool) (l : list A) :
  forallb f l = false -> exists x, In x l /\ f x = false.
Proof.
  induction l as [|x l IH]; cbn [forallb]; [discriminate|].
  destruct (f x) eqn:E; cbn [andb]; intros H.
  - destruct (IH H) as (y & Hy & Hf). exists y. split; [now right | exact Hf].
  - exists x. split; [now left | exact E].
Qed.

Lemma amounts_not_numeric (os : list node) :
  forallb amount_numeric os = false ->
  mapM number (non_null "total_amount" os) = Err TypeError.
Proof.
  induction os as [|o os IH]; cbn [forallb]; [discriminate|].
  unfold non_null in *. cbn [omap list_omap]. unfold amount_numeric at 1.
  destruct (prop o "total_amount") as [[q|s|z|z t]|]; cbn [andb mapM number rbind];
    try reflexivity; intros H; rewrite (IH H); reflexivity.
Qed.

Lemma number_errors (vs : list value) (e : error) :
  mapM number vs = Err e -> e = TypeError.
Proof.
  induction vs as [|v vs IH]; cbn [mapM]; [discriminate|].
  destruct v; cbn [number rbind]; try congruence.
  destruct (mapM number vs) as [qs|e']; cbn [rbind]; [discriminate|].
  intros H. apply IH. congruence.
Qed.

Lemma update_customer_errors (d : db) (c : node) (e : error) :
  update_customer d c = Err e -> e = TypeError.
Proof.
  unfold update_customer. destruct (has_label Customer c); [|discriminate].
  destruct (orders_of d c) as [|o os]; [discriminate|].
  unfold set_metrics.
  destruct (mapM number _) as [qs|e'] eqn:E; cbn [rbind]; [discriminate|].
  intros H. assert (e = e') as -> by congruence. exact (number_errors _ e' E).
Qed.

(** X1: metrics computation raises exactly when some order of some customer
    carries a total_amount that is no number, and then with a type
    error; sum() accepts nothing else. *)
Theorem metrics_raise_on_text_amount (d : db) :
  match calculate_customer_metrics d with
  | Ok _ => amounts_numeric d = true
  | Err e => e = TypeError /\ amounts_numeric d = false
  end.
Proof.
  destruct (amounts_numeric d) eqn:Hnum.
  - destruct (mapM_total (update_customer d) (nodes d)
                (update_customer_total d Hnum)) as [ns Hns].
    unfold calculate_customer_metrics. now rewrite Hns.
  - unfold amounts_numeric in Hnum.
    apply forallb_false in Hnum as (c & Hc & Hos).
    unfold labelled in Hc. apply filter_In in Hc as [Hc Hl].
    assert (Hup : update_customer d c = Err TypeError).
    { unfold update_customer. rewrite Hl.
      destruct (orders_of d c) as [|o os] eqn:E; [discriminate|].
      unfold set_metrics. now rewrite (amounts_not_numeric _ Hos). }
    unfold calculate_customer_metrics.
    rewrite (mapM_error (update_customer d) (nodes d) c TypeError TypeError
               (update_customer_errors d) Hc Hup).
    cbn [rbind]. auto.
Qed.

Lemma set_metrics_frame (c c' : node) (os : list node) (k : string) :
  set_metrics c os = Ok c' -> ~ In k metric_keys -> prop c' k = prop c k.
Proof.
  unfold set_metrics.
  destruct (mapM number _) as [qs|e]; cbn [rbind]; [|discriminate].
  intros H Hk. apply Ok_inj in H as <-. unfold prop; cbn [nprops].
  cbn [metric_keys In] in Hk.
  repeat (rewrite set_prop_lookup_ne by (intros <-; apply Hk; tauto)).
  reflexivity.
Qed.

Lemma update_customer_frame (d : db) (c c' : node) :
  update_customer d c = Ok c' ->
  nid c' = nid c /\ nlabel c' = nlabel c /\
  (has_label Customer c = false -> c' = c) /\
  forall k, ~ In k metric_keys -> prop c' k = prop c k.
Proof.
  unfold update_customer. destruct (has_label Customer c) eqn:Hl.
  - destruct (orders_of d c) as [|o os].
    + intros H. apply Ok_inj in H as <-. auto.
    + intros H. pose proof (set_metrics_props _ _ _ H) as (qs & _ & Hi & Hlab & _).
      repeat split; try assumption; [discriminate|].
      intros k Hk. now apply (set_metrics_frame c c' (o :: os)).
  - intros H. apply Ok_inj in H as <-. auto.
Qed.

(** X2: metrics computation writes the five metric properties of customers
    and nothing else: relationships and constraints stay, every node
    keeps its place, identity and label, nodes that are no customers
    are unchanged, and every other property of a customer is kept. *)
Theorem metrics_touch_metrics_only (d d' : db) :
  calculate_customer_metrics d = Ok d' ->
  rels d' = rels d /\ constraints d' = constraints d /\
  length (nodes d') = length (nodes d) /\
  forall i c, nodes d !! i = Some c ->
    exists c', nodes d' !! i = Some c' /\
               nid c' = nid c /\ nlabel c' = nlabel c /\
               (has_label Customer c = false -> c' = c) /\
               forall k, ~ In k metric_keys -> prop c' k = prop c k.
Proof.
  intros Hrun. pose proof Hrun as H. unfold calculate_customer_metrics in H.
  destruct (mapM (update_customer d) (nodes d)) as [ns|e] eqn:E; cbn [rbind] in H;
    [|discriminate].
  apply Ok_inj in H as <-. cbn [rels constraints nodes].
  repeat split; [now apply mapM_length in E|].
  intros i c Hi. destruct (mapM_lookup _ _ _ E i c Hi) as (c' & Hi' & Hup).
  exists c'. split; [exact Hi'|]. now apply update_customer_frame in Hup.
Qed.

Lemma metrics_touch_metrics_only_witness :
  exists d', calculate_customer_metrics Sample.sparse = Ok d' /\
             rels d' = rels Sample.sparse /\
             length (nodes d') = length (nodes Sample.sparse).
Proof.
  set (d := Sample.sparse).
  set (d' := match calculate_customer_metrics d with
             | Ok x => x
             | Err _ => d
             end).
  assert (Hrun : calculate_customer_metrics d = Ok d') by (vm_compute; reflexivity).
  exists d'. split; [exact Hrun|].
  destruct (metrics_touch_metrics_only d d' Hrun) as (Hr & _ & Hn & _). auto.
Defined.

(** X3: a customer whose orders all lack a total_amount still gets metrics:
    sum() over nothing is 0 and avg() over nothing is null, so
    total_spent is 0, the tier is Standard and avg_order_value is
    absent, while total_orders counts the orders. *)
Theorem unpriced_orders_sum_to_zero (d d' : db) (i : nat) (c : node) :
  calculate_customer_metrics d = Ok d' ->
  nodes d !! i = Some c ->
  has_label Customer c = true ->
  orders_of d c <> [] ->
  non_null "total_amount" (orders_of d c) = [] ->
  exists c', nodes d' !! i = Some c' /\
             prop c' "total_orders" = Some (of_nat (length (orders_of d c))) /\
             prop c' "total_spent" = Some (VNum 0) /\
             prop c' "avg_order_value" = None /\
             prop c' "customer_tier" = Some (VStr "Standard").
Proof.
  intros Hrun Hi Hl Hos Hnull.
  destruct (update_customer_lookup d d' i c Hrun Hi) as (c' & Hi' & Hup).
  exists c'. split; [exact Hi'|].
  unfold update_customer in Hup. rewrite Hl in Hup.
  destruct (orders_of d c) as [|o os] eqn:Eos; [congruence|].
  apply set_metrics_props in Hup as (qs & Hqs & _ & _ & Hn & Hs & Ha & _ & Ht).
  rewrite Hnull in Hqs. cbn [mapM] in Hqs. apply Ok_inj in Hqs as <-.
  auto.
Qed.

Lemma unpriced_orders_sum_to_zero_witness :
  exists d' c',
    calculate_customer_metrics Sample.unpriced = Ok d' /\
    nodes d' !! 0 = Some c' /\
    prop c' "total_orders" = Some (of_nat 1) /\
    prop c' "total_spent" = Some (VNum 0) /\
    prop c' "avg_order_value" = None /\
    prop c' "customer_tier" = Some (VStr "Standard").
Proof.
  set (d := Sample.unpriced).
  set (d' := match calculate_customer_metrics d with
             | Ok x => x
             | Err _ => d
             end).
  set (c := Sample.pick (nodes d) 0).
  assert (Hrun : calculate_customer_metrics d = Ok d') by (vm_compute; reflexivity).
  assert (Hi : nodes d !! 0 = Some c) by (vm_compute; reflexivity).
  assert (Hl : has_label Customer c = true) by (vm_compute; reflexivity).
  assert (Hos : orders_of d c <> []) by (vm_compute; discriminate).
  assert (Hnull : non_null "total_amount" (orders_of d c) = [])
    by (vm_compute; reflexivity).
  assert (Hlen : length (orders_of d c) = 1) by (vm_compute; reflexivity).
  destruct (unpriced_orders_sum_to_zero d d' 0 c Hrun Hi Hl Hos Hnull)
    as (c' & H0 & H1 & H2 & H3 & H4).
  rewrite Hlen in H1. exists d', c'. auto 10.
Defined.

Lemma non_null_dates (os : list node) :
  forallb dated os = true ->
  non_null "order_date" os = map VDate (order_days os).
Proof.
  induction os as [|o os IH]; [reflexivity|].
  cbn [forallb]. rewrite andb_true_iff. intros [Ho Hos].
  unfold non_null, order_days in *. cbn [omap list_omap]. unfold dated in Ho.
  destruct (prop o "order_date") as [[q|s|z|z t]|]; try discriminate.
  - cbn [map]. now rewrite (IH Hos).
  - apply IH, Hos.
Qed.

Lemma maximum_step_dates (zs : list Z) (a : Z) :
  fold_left (fun acc v =>
               match acc with
               | None => Some v
               | Some m => if below m v then Some v else Some m
               end) (map VDate zs) (Some (VDate a))
  = Some (VDate (fold_left Z.max zs a)).
Proof.
  revert a. induction zs as [|z zs IH]; intros a; cbn [map fold_left]; [reflexivity|].
  unfold below; cbn [rank Nat.ltb Nat.leb lt holds].
  destruct (Z.ltb_spec a z).
  - rewrite IH. do 3 f_equal. lia.
  - rewrite IH. do 3 f_equal. lia.
Qed.

Lemma fold_max_bounds (zs : list Z) (a : Z) :
  (a <= fold_left Z.max zs a)%Z /\
  (forall z, In z zs -> (z <= fold_left Z.max zs a)%Z) /\
  In (fold_left Z.max zs a) (a :: zs).
Proof.
  revert a. induction zs as [|z zs IH]; intros a; cbn [fold_left].
  - repeat split; [lia | intros z [] | now left].
  - destruct (IH (Z.max a z)) as (H1 & H2 & H3). repeat split.
    + lia.
    + intros y [<-|Hy]; [lia | now apply H2].
    + destruct H3 as [H3|H3]; [|now right; right].
      rewrite <- H3. destruct (Z.max_spec a z) as [[_ ->]|[_ ->]];
        [right; now left | now left].
Qed.

(** X5: last_order_date is the latest order date: when the order dates of a
    customer are dates, as load_orders stores them, the property holds
    the day of one of the orders, and no order is later. *)
Theorem last_order_date_is_latest (d d' : db) (i : nat) (c : node) :
  calculate_customer_metrics d = Ok d' ->
  nodes d !! i = Some c ->
  has_label Customer c = true ->
  forallb dated (orders_of d c) = true ->
  order_days (orders_of d c) <> [] ->
  exists c' day,
    nodes d' !! i = Some c' /\
    prop c' "last_order_date" = Some (VDate day) /\
    In day (order_days (orders_of d c)) /\
    forall z, In z (order_days (orders_of d c)) -> (z <= day)%Z.
Proof.
  intros Hrun Hi Hl Hdated Hdays.
  destruct (update_customer_lookup d d' i c Hrun Hi) as (c' & Hi' & Hup).
  unfold update_customer in Hup. rewrite Hl in Hup.
  destruct (orders_of d c) as [|o os] eqn:Eos; [now destruct Hdays|].
  apply set_metrics_props in Hup as (qs & _ & _ & _ & _ & _ & _ & Hlast & _).
  rewrite (non_null_dates _ Hdated) in Hlast.
  destruct (order_days (o :: os)) as [|a zs]; [now destruct Hdays|].
  unfold maximum in Hlast. cbn [map fold_left] in Hlast.
  rewrite maximum_step_dates in Hlast.
  destruct (fold_max_bounds zs a) as (H1 & H2 & H3).
  exists c', (fold_left Z.max zs a). repeat split; try assumption.
  intros z [<-|Hz]; auto.
Qed.

Lemma last_order_date_is_latest_witness :
  exists d' c' day,
    calculate_customer_metrics Sample.sparse = Ok d' /\
    nodes d' !! 0 = Some c' /\
    prop c' "last_order_date" = Some (VDate day) /\
    In day [19359; 19360]%Z /\
    forall z, In z [19359; 19360]%Z -> (z <= day)%Z.
Proof.
  set (d := Sample.sparse).
  set (d' := match calculate_customer_metrics d with
             | Ok x => x
             | Err _ => d
             end).
  set (c := Sample.pick (nodes d) 0).
  assert (Hrun : calculate_customer_metrics d = Ok d') by (vm_compute; reflexivity).
  assert (Hi : nodes d !! 0 = Some c) by (vm_compute; reflexivity).
  assert (Hl : has_label Customer c = true) by (vm_compute; reflexivity).
  assert (Hdated : forallb dated (orders_of d c) = true) by (vm_compute; reflexivity).
  assert (Hdays : order_days (orders_of d c) = [19359; 19360]%Z)
    by (vm_compute; reflexivity).
  assert (Hne : order_days (orders_of d c) <> []) by (rewrite Hdays; discriminate).
  destruct (last_order_date_is_latest d d' 0 c Hrun Hi Hl Hdated Hne)
    as (c' & day & H0 & H1 & H2 & H3).
  rewrite Hdays in H2, H3. exists d', c', day. auto 10.
Defined.

Lemma mapM_fixed {A} (f : A -> result A) (l : list A) :
  (forall a, In a l -> f a = Ok a) -> mapM f l = Ok l.
Proof.
  induction l as [|a l IH]; cbn [mapM]; intros H; [reflexivity|].
  rewrite (H a (or_introl eq_refl)). cbn [rbind].
  rewrite IH; [reflexivity|]. intros b Hb. apply H. now right.
Qed.

Lemma mapM_In {A B} (f : A -> result B) (l : list A) (l' : list B) (b : B) :
  mapM f l = Ok l' -> In b l' -> exists a, In a l /\ f a = Ok b.
Proof.
  revert l'. induction l as [|x l IH]; cbn [mapM]; intros l' H Hb.
  - apply Ok_inj in H as <-. destruct Hb.
  - destruct (f x) as [y|e] eqn:Ex; cbn [rbind] in H; [|discriminate].
    destruct (mapM f l) as [ys|e]; cbn [rbind] in H; [|discriminate].
    apply Ok_inj in H as <-. destruct Hb as [<-|Hb].
    + exists x. split; [now left | exact Ex].
    + destruct (IH ys eq_refl Hb) as (a & Ha & Hf). exists a. split; [now right|exact Hf].
Qed.

(** Updating the customers leaves every selection of other nodes as it
    was. *)
Lemma mapM_update_filter (d : db) (f : node -> bool) (l ns : list node) :
  (forall n, f n = true -> has_label Customer n = false) ->
  (forall a b, nlabel a = nlabel b -> nid a = nid b ->
               has_label Customer a = true -> f a = f b) ->
  mapM (update_customer d) l = Ok ns ->
  List.filter f ns = List.filter f l.
Proof.
  intros Hf Hlab. revert ns. induction l as [|a l IH]; cbn [mapM]; intros ns H.
  - apply Ok_inj in H as <-. reflexivity.
  - destruct (update_customer d a) as [b|e] eqn:Ea; cbn [rbind] in H; [|discriminate].
    destruct (mapM (update_customer d) l) as [bs|e]; cbn [rbind] in H; [|discriminate].
    apply Ok_inj in H as <-. cbn [List.filter]. rewrite (IH bs eq_refl).
    apply update_customer_frame in Ea as (Hi & Hl & Hsame & _).
    destruct (has_label Customer a) eqn:Hc.
    + rewrite <- (Hlab a b (eq_sym Hl) (eq_sym Hi) Hc).
      destruct (f a) eqn:Fa; [|reflexivity].
      rewrite (Hf a Fa) in Hc. discriminate.
    + now rewrite (Hsame eq_refl).
Qed.

Lemma orders_of_updated (d : db) (ns : list node) (a b : node) :
  mapM (update_customer d) (nodes d) = Ok ns ->
  nid b = nid a ->
  orders_of (DB ns (rels d) (constraints d)) b = orders_of d a.
Proof.
  intros Hns Hid. unfold orders_of, out_rels, node_at; cbn [nodes rels].
  rewrite Hid. apply flat_map_ext_in; intros r _.
  apply (mapM_update_filter d _ (nodes d) ns); [| |exact Hns].
  - intros n Hn. apply andb_true_iff in Hn as [Hn _]. unfold has_label in *.
    destruct (nlabel n); cbn in *; congruence.
  - intros x y Hl _ Hc. unfold has_label in *. rewrite <- Hl.
    destruct (nlabel x); cbn in *; congruence.
Qed.

Lemma metric_props_absorb (v1 v2 v3 v4 v5 : option value) (m : gmap string value) :
  let write := fun m => set_prop "customer_tier" v5
                         (set_prop "last_order_date" v4
                         (set_prop "avg_order_value" v3
                         (set_prop "total_spent" v2
                         (set_prop "total_orders" v1 m)))) in
  write (write m) = write m.
Proof.
  intros write. apply map_eq. intros k. unfold write.
  destruct (decide (k = "customer_tier")) as [->|N5];
    [now rewrite !set_prop_lookup|].
  rewrite !(set_prop_lookup_ne "customer_tier") by congruence.
  destruct (decide (k = "last_order_date")) as [->|N4];
    [now rewrite !set_prop_lookup|].
  rewrite !(set_prop_lookup_ne "last_order_date") by congruence.
  destruct (decide (k = "avg_order_value")) as [->|N3];
    [now rewrite !set_prop_lookup|].
  rewrite !(set_prop_lookup_ne "avg_order_value") by congruence.
  destruct (decide (k = "total_spent")) as [->|N2];
    [now rewrite !set_prop_lookup|].
  rewrite !(set_prop_lookup_ne "total_spent") by congruence.
  destruct (decide (k = "total_orders")) as [->|N1];
    [now rewrite !set_prop_lookup|].
  rewrite !(set_prop_lookup_ne "total_orders") by congruence.
  repeat (rewrite set_prop_lookup_ne by congruence). reflexivity.
Qed.

Lemma set_metrics_again (c c' : node) (os : list node) :
  set_metrics c os = Ok c' -> set_metrics c' os = Ok c'.
Proof.
  unfold set_metrics.
  destruct (mapM number _) as [qs|e]; cbn [rbind]; [|discriminate].
  intros H. apply Ok_inj in H as <-. cbn [nid nlabel nprops].
  do 2 f_equal. apply metric_props_absorb.
Qed.

(** X6: computing the metrics a second time changes nothing: the metrics are
    a function of the orders, which the computation does not touch. *)
Theorem metrics_idempotent (d d' : db) :
  calculate_customer_metrics d = Ok d' ->
  calculate_customer_metrics d' = Ok d'.
Proof.
  intros Hrun. unfold calculate_customer_metrics in Hrun.
  destruct (mapM (update_customer d) (nodes d)) as [ns|e] eqn:E; cbn [rbind] in Hrun;
    [|discriminate].
  apply Ok_inj in Hrun as <-.
  unfold calculate_customer_metrics; cbn [nodes rels constraints].
  rewrite mapM_fixed; [reflexivity|].
  intros b Hb. destruct (mapM_In _ _ _ b E Hb) as (a & Ha & Hup).
  pose proof (update_customer_frame _ _ _ Hup) as (Hi & Hl & Hsame & _).
  unfold update_customer in *. unfold has_label in *. rewrite Hl.
  destruct (label_eqb (nlabel a) Customer) eqn:Hc; [|exact eq_refl].
  rewrite (orders_of_updated d ns a b E Hi).
  destruct (orders_of d a) as [|o os].
  - reflexivity.
  - exact (set_metrics_again _ _ _ Hup).
Qed.

Lemma metrics_idempotent_witness :
  exists d', calculate_customer_metrics Sample.sparse = Ok d' /\
             calculate_customer_metrics d' = Ok d'.
Proof.
  set (d := Sample.sparse).
  set (d' := match calculate_customer_metrics d with
             | Ok x => x
             | Err _ => d
             end).
  assert (Hrun : calculate_customer_metrics d = Ok d') by (vm_compute; reflexivity).
  exists d'. split; [exact Hrun | exact (metrics_idempotent d d' Hrun)].
Defined.

(** ** Derived relationships *)

Lemma nodup_length_le (l : list nat) : length (nodup Nat.eq_dec l) <= length l.
Proof.
  induction l as [|x l IH]; cbn [nodup length]; [lia|].
  destruct (in_dec Nat.eq_dec x l); cbn [length]; lia.
Qed.

Lemma existsb_filter_nonempty {A} (f : A -> bool) (l : list A) :
  existsb f l = true -> List.filter f l <> [].
Proof.
  intros H E. apply existsb_exists in H as (x & Hx & Hf).
  assert (Hin : In x (List.filter f l)) by (apply filter_In; auto).
  rewrite E in Hin. destruct Hin.
Qed.

Lemma filter_le_flat_map {A B} (P : A -> bool) (F : A -> list B) (l : list A) :
  (forall x, P x = true -> F x <> []) ->
  length (List.filter P l) <= length (flat_map F l).
Proof.
  intros H. induction l as [|x l IH]; cbn [List.filter flat_map length]; [lia|].
  rewrite length_app. destruct (P x) eqn:E; cbn [length]; [|lia].
  specialize (H x E). destruct (F x); [congruence | cbn [length]; lia].
Qed.

Lemma distinct_le_common (d : db) (c1 c2 : node) :
  distinct_shared_products d c1 c2 <= common_products d c1 c2.
Proof.
  unfold distinct_shared_products, common_products.
  etransitivity; [apply nodup_length_le|]. rewrite length_map.
  apply filter_le_flat_map. intros p. apply existsb_filter_nonempty.
Qed.

Lemma distinct_le_co_purchases (d : db) (p1 p2 : node) :
  distinct_shared_customers d p1 p2 <= co_purchases d p1 p2.
Proof.
  unfold distinct_shared_customers, co_purchases.
  etransitivity; [apply nodup_length_le|]. rewrite length_map.
  apply filter_le_flat_map. intros c. apply existsb_filter_nonempty.
Qed.

(** X7: two customers who share two or more distinct products, the first
    with the lower id, always get a SIMILAR_TO edge; its strength is at
    least the number of distinct shared products. *)
Theorem shared_products_give_edge (d : db) (c1 c2 : node) :
  In c1 (labelled d Customer) -> In c2 (labelled d Customer) ->
  holds (lt (prop c1 "id") (prop c2 "id")) = true ->
  2 <= distinct_shared_products d c1 c2 ->
  exists n,
    distinct_shared_products d c1 c2 <= n /\
    In (Rel SIMILAR_TO (nid c1) (nid c2) {[ "strength" := of_nat n ]})
       (rels (create_customer_similarity_relationships d)).
Proof.
  intros H1 H2 Hlt Hn. pose proof (distinct_le_common d c1 c2) as Hle.
  exists (common_products d c1 c2). split; [exact Hle|].
  cbn [create_customer_similarity_relationships rels]. apply in_or_app. right.
  apply in_map_iff. exists (c1, c2, common_products d c1 c2). split; [reflexivity|].
  rewrite similar_rows_eq. apply in_pair_rows. repeat split; auto. lia.
Qed.

Lemma shared_products_give_edge_witness :
  let d := Sample.scenario in
  let c1 := Sample.pick (nodes d) 0 in
  let c2 := Sample.pick (nodes d) 1 in
  exists n,
    distinct_shared_products d c1 c2 <= n /\
    In (Rel SIMILAR_TO (nid c1) (nid c2) {[ "strength" := of_nat n ]})
       (rels (create_customer_similarity_relationships d)).
Proof.
  intros d c1 c2.
  apply shared_products_give_edge.
  - vm_compute. auto.
  - vm_compute. auto.
  - vm_compute. reflexivity.
  - assert (E : distinct_shared_products d c1 c2 = 2) by (vm_compute; reflexivity).
    rewrite E. lia.
Defined.

(** X8: two products that two or more distinct customers have both ordered,
    the first with the lower id, always get a CO_PURCHASED edge; its
    frequency is at least the number of those customers. *)
Theorem shared_customers_give_edge (d : db) (p1 p2 : node) :
  In p1 (labelled d Product) -> In p2 (labelled d Product) ->
  holds (lt (prop p1 "id") (prop p2 "id")) = true ->
  2 <= distinct_shared_customers d p1 p2 ->
  exists n,
    distinct_shared_customers d p1 p2 <= n /\
    In (Rel CO_PURCHASED (nid p1) (nid p2) {[ "frequency" := of_nat n ]})
       (rels (create_product_co_purchase_relationships d)).
Proof.
  intros H1 H2 Hlt Hn. pose proof (distinct_le_co_purchases d p1 p2) as Hle.
  exists (co_purchases d p1 p2). split; [exact Hle|].
  cbn [create_product_co_purchase_relationships rels]. apply in_or_app. right.
  apply in_map_iff. exists (p1, p2, co_purchases d p1 p2). split; [reflexivity|].
  rewrite co_purchase_rows_eq. apply in_pair_rows. repeat split; auto. lia.
Qed.

Lemma shared_customers_give_edge_witness :
  let d := Sample.scenario in
  let p1 := Sample.pick (nodes d) 3 in
  let p2 := Sample.pick (nodes d) 4 in
  exists n,
    distinct_shared_customers d p1 p2 <= n /\
    In (Rel CO_PURCHASED (nid p1) (nid p2) {[ "frequency" := of_nat n ]})
       (rels (create_product_co_purchase_relationships d)).
Proof.
  intros d p1 p2.
  apply shared_customers_give_edge.
  - vm_compute. auto.
  - vm_compute. auto 10.
  - vm_compute. reflexivity.
  - assert (E : distinct_shared_customers d p1 p2 = 2) by (vm_compute; reflexivity).
    rewrite E. lia.
Defined.

Lemma filter_same_node_unique (p : node) (l : list node) :
  NoDup (map nid l) -> length (List.filter (same_node p) l) <= 1.
Proof.
  induction l as [|x l IH]; cbn [map List.filter length]; [lia|].
  rewrite NoDup_cons. intros [Hx Hl]. specialize (IH Hl).
  unfold same_node at 1. destruct (Nat.eqb_spec (nid p) (nid x)) as [E|_]; [|exact IH].
  rewrite filter_none; [cbn [length]; lia|].
  intros y Hy. unfold same_node. apply Nat.eqb_neq. intros E'.
  apply Hx, list_elem_of_In. rewrite <- E, E'. now apply in_map.
Qed.

Lemma flat_map_length_filter {A B} (P : A -> bool) (F : A -> list B) (l : list A) :
  (forall x, P x = true -> F x <> []) ->
  (forall x, P x = false -> F x = []) ->
  (forall x, length (F x) <= 1) ->
  length (flat_map F l) = length (List.filter P l).
Proof.
  intros Hp Hn H1. induction l as [|x l IH]; cbn [List.filter flat_map length];
    [reflexivity|].
  rewrite length_app, IH. destruct (P x) eqn:E.
  - specialize (Hp x E). specialize (H1 x).
    destruct (F x) as [|b [|b' bs]]; cbn [length] in *; [congruence | lia | lia].
  - now rewrite (Hn x E).
Qed.

Lemma nodup_map_filter (P : node -> bool) (l : list node) :
  NoDup (map nid l) ->
  nodup Nat.eq_dec (map nid (List.filter P l)) = map nid (List.filter P l).
Proof.
  intros H. apply nodup_fixed_point, NoDup_ListNoDup.
  induction l as [|x l IH]; cbn [map List.filter]; [constructor|].
  apply NoDup_cons in H as [Hx Hl]. specialize (IH Hl).
  destruct (P x); [|exact IH]. cbn [map]. apply NoDup_cons. split; [|exact IH].
  intros Hin. apply Hx. apply list_elem_of_In in Hin. apply list_elem_of_In.
  apply in_map_iff in Hin as (y & Ey & Hy). apply filter_In in Hy as [Hy _].
  rewrite <- Ey. now apply in_map.
Qed.

(** X9: when neither customer ordered a product twice, the strength the
    query computes is the number of distinct products the two customers
    share: the count is off only through repeated orders. *)
Theorem common_products_without_repeats (d : db) (c1 c2 : node) :
  NoDup (map nid (purchased d c1)) ->
  NoDup (map nid (purchased d c2)) ->
  common_products d c1 c2 = distinct_shared_products d c1 c2.
Proof.
  intros H1 H2. unfold common_products, distinct_shared_products.
  rewrite (nodup_map_filter _ _ H1), length_map.
  apply flat_map_length_filter.
  - intros p. apply existsb_filter_nonempty.
  - intros p. apply existsb_false_filter.
  - intros p. now apply filter_same_node_unique.
Qed.

Lemma common_products_without_repeats_witness :
  let d := Sample.scenario in
  common_products d (Sample.pick (nodes d) 0) (Sample.pick (nodes d) 1)
  = distinct_shared_products d (Sample.pick (nodes d) 0) (Sample.pick (nodes d) 1).
Proof.
  intros d. apply common_products_without_repeats;
    apply (bool_decide_unpack _); vm_compute; reflexivity.
Defined.

Lemma co_purchase_count (d : db) (p2 : node) (l : list node) :
  (forall c, In c l -> NoDup (map nid (purchased d c))) ->
  length (flat_map (fun c => List.filter (same_node p2) (purchased d c)) l)
  = length (List.filter (fun c => existsb (same_node p2) (purchased d c)) l).
Proof.
  induction l as [|c l IH]; intros H; cbn [flat_map List.filter]; [reflexivity|].
  rewrite length_app, IH by (intros c' Hc'; apply H; now right).
  pose proof (filter_same_node_unique p2 _ (H c (or_introl eq_refl))) as Hle.
  destruct (existsb (same_node p2) (purchased d c)) eqn:E.
  - apply existsb_filter_nonempty in E.
    destruct (List.filter (same_node p2) (purchased d c)) as [|x [|y ys]];
      cbn [length] in *; [congruence | lia | lia].
  - now rewrite (existsb_false_filter _ _ E).
Qed.

(** X10: when no customer ordered a product twice, the frequency the query
    computes is the number of distinct customers who ordered both
    products. *)
Theorem co_purchases_without_repeats (d : db) (p1 p2 : node) :
  NoDup (map nid (buyers d p1)) ->
  (forall c, In c (buyers d p1) -> NoDup (map nid (purchased d c))) ->
  co_purchases d p1 p2 = distinct_shared_customers d p1 p2.
Proof.
  intros H1 H2. unfold co_purchases, distinct_shared_customers.
  rewrite (nodup_map_filter _ _ H1), length_map.
  now apply co_purchase_count.
Qed.

Lemma co_purchases_without_repeats_witness :
  let d := Sample.scenario in
  co_purchases d (Sample.pick (nodes d) 3) (Sample.pick (nodes d) 4)
  = distinct_shared_customers d (Sample.pick (nodes d) 3) (Sample.pick (nodes d) 4).
Proof.
  intros d.
  assert (Hb : buyers d (Sample.pick (nodes d) 3)
               = [Sample.pick (nodes d) 0; Sample.pick (nodes d) 1])
    by (vm_compute; reflexivity).
  apply co_purchases_without_repeats.
  - apply (bool_decide_unpack _). vm_compute. reflexivity.
  - rewrite Hb. intros c [<-|[<-|[]]];
      apply (bool_decide_unpack _); vm_compute; reflexivity.
Defined.

(** X11: every edge the derivations add is a SIMILAR_TO edge between two
    stored customers or a CO_PURCHASED edge between two stored products;
    its only property is the count of the pair, which is 2 or more. *)
Theorem derived_edges_shape (d : db) (r : rel) :
  In r (derived_edges d) ->
  (rtyp r = SIMILAR_TO /\
   exists a b n, In a (labelled d Customer) /\ In b (labelled d Customer) /\
                 rsrc r = nid a /\ rdst r = nid b /\
                 n = common_products d a b /\ 2 <= n /\
                 rprops r = {[ "strength" := of_nat n ]}) \/
  (rtyp r = CO_PURCHASED /\
   exists a b n, In a (labelled d Product) /\ In b (labelled d Product) /\
                 rsrc r = nid a /\ rdst r = nid b /\
                 n = co_purchases d a b /\ 2 <= n /\
                 rprops r = {[ "frequency" := of_nat n ]}).
Proof.
  unfold derived_edges. rewrite in_app_iff, !in_map_iff.
  intros [([[a b] n] & <- & H)|([[a b] n] & <- & H)]; [left|right];
    [rewrite similar_rows_eq in H | rewrite co_purchase_rows_eq in H];
    apply in_pair_rows in H as (Ha & Hb & _ & Hn & H2);
    (split; [reflexivity|]); exists a, b, n; cbn; auto 10.
Qed.

Lemma derived_edges_shape_witness :
  let d := Sample.scenario in
  let r := Rel CO_PURCHASED 4 5 {[ "frequency" := of_nat 2 ]} in
  In r (derived_edges d) /\
  ((rtyp r = SIMILAR_TO /\
    exists a b n, In a (labelled d Customer) /\ In b (labelled d Customer) /\
                  rsrc r = nid a /\ rdst r = nid b /\
                  n = common_products d a b /\ 2 <= n /\
                  rprops r = {[ "strength" := of_nat n ]}) \/
   (rtyp r = CO_PURCHASED /\
    exists a b n, In a (labelled d Product) /\ In b (labelled d Product) /\
                  rsrc r = nid a /\ rdst r = nid b /\
                  n = co_purchases d a b /\ 2 <= n /\
                  rprops r = {[ "frequency" := of_nat n ]})).
Proof.
  intros d r.
  assert (Hr : In r (derived_edges d)) by (vm_compute; auto).
  split; [exact Hr | exact (derived_edges_shape d r Hr)].
Defined.

Lemma flat_map_filter_nil {A B} (f : B -> A -> bool) (l : list B) :
  flat_map (fun p => List.filter (f p) (@nil A)) l = [].
Proof. now apply flat_map_nil. Qed.

(** X12: only customers with orders are linked: both ends of every
    similarity row have ordered some product. *)
Theorem similar_customers_have_orders (d : db) (a b : node) (n : nat) :
  In (a, b, n) (similar_rows d) ->
  purchased d a <> [] /\ purchased d b <> [].
Proof.
  rewrite similar_rows_eq. intros H.
  apply in_pair_rows in H as (_ & _ & _ & -> & Hn).
  unfold common_products in Hn. split; intros E; rewrite E in Hn.
  - cbn [flat_map length] in Hn. lia.
  - rewrite flat_map_filter_nil in Hn. cbn [length] in Hn. lia.
Qed.

Lemma similar_customers_have_orders_witness :
  let d := Sample.scenario in
  let a := Sample.pick (nodes d) 0 in
  let b := Sample.pick (nodes d) 1 in
  purchased d a <> [] /\ purchased d b <> [].
Proof.
  intros d a b. apply (similar_customers_have_orders d a b 2).
  vm_compute. auto.
Defined.

(** ** Loading customers *)

Lemma foldM_app {A S} (f : S -> A -> result S) (s : S) (l1 l2 : list A) :
  foldM f s (l1 ++ l2) = rbind (foldM f s l1) (fun s' => foldM f s' l2).
Proof.
  revert s. induction l1 as [|a l1 IH]; intros s; cbn [app foldM rbind]; [reflexivity|].
  destruct (f s a) as [s'|e]; cbn [rbind]; [apply IH | reflexivity].
Qed.

Lemma eqv_sym (a b : value) : eqv a b = eqv b a.
Proof.
  destruct a, b; cbn [eqv]; try reflexivity.
  - unfold Qeq_bool. apply Z.eqb_sym.
  - apply String.eqb_sym.
  - apply Z.eqb_sym.
  - now rewrite (Z.eqb_sym day), (Z.eqb_sym secs).
Qed.

Lemma matches_sym (a b : option value) : matches a b = matches b a.
Proof. destruct a, b; cbn [matches]; auto using eqv_sym. Qed.

Lemma id_clash_sym (a b : node) : id_clash a b = id_clash b a.
Proof.
  unfold id_clash. rewrite (matches_sym (prop a "id")). f_equal.
  destruct (nlabel a), (nlabel b); reflexivity.
Qed.

Section LoadCustomers.

Variable parse_date : string -> option Z.

Lemma create_customer_inv (d d' : db) (customer : row) :
  create_customer parse_date d customer = Ok d' ->
  exists n,
    d' = DB (nodes d ++ [n]) (rels d) (constraints d) /\
    nid n = fresh d /\ nlabel n = Customer /\
    (forall k, In k customer_columns -> prop n k = customer !! k) /\
    (constrained d Customer = true -> existsb (id_clash n) (nodes d) = false).
Proof.
  unfold create_customer.
  destruct (date parse_date _) as [dt|e]; cbn [rbind]; [|discriminate].
  set (ps := props_of _).
  assert (Hps : forall k, In k customer_columns -> ps !! k = customer !! k).
  { intros k Hk. subst ps. unfold props_of; cbn [fold_right fst snd].
    cbn [customer_columns In] in Hk.
    repeat (destruct Hk as [<-|Hk]; [props_lookup|]). destruct Hk. }
  unfold create_node.
  destruct (constrained d Customer && existsb _ (nodes d)) eqn:E; cbn [rbind fst];
    [discriminate|].
  intros H. apply Ok_inj in H as <-.
  exists (Node (fresh d) Customer ps). repeat split; try assumption.
  intros Hc. now rewrite Hc in E.
Qed.

(** X14: a successful load of customers appends one Customer node per record,
    in the order of the table; the copied columns read back from the
    node as they were in the record, and nothing else changes. *)
Theorem load_customers_appends (customers_df : list row) (d d' : db) :
  load_customers parse_date customers_df d = Ok d' ->
  rels d' = rels d /\ constraints d' = constraints d /\
  exists new,
    nodes d' = nodes d ++ new /\
    Forall2 (fun customer n =>
               nlabel n = Customer /\
               forall k, In k customer_columns -> prop n k = customer !! k)
            customers_df new.
Proof.
  unfold load_customers. revert d.
  induction customers_df as [|c rows IH]; intros d; cbn [foldM].
  - intros H. apply Ok_inj in H as <-. repeat split.
    exists []. split; [now rewrite app_nil_r | constructor].
  - destruct (create_customer parse_date d c) as [d1|e] eqn:E; cbn [rbind];
      [|discriminate].
    intros H. apply create_customer_inv in E as (n & -> & _ & Hl & Hk & _).
    destruct (IH _ H) as (Hr & Hc & new & Hn & Hall). cbn [nodes rels constraints] in *.
    repeat split; try assumption.
    exists (n :: new). split; [now rewrite Hn, <- app_assoc|].
    constructor; auto.
Qed.

Lemma distinct_ids_snoc (l : list node) (n : node) :
  distinct_ids (l ++ [n])
  = distinct_ids l && negb (existsb (fun m => id_clash m n) l).
Proof.
  induction l as [|x l IH]; cbn [app distinct_ids existsb]; [reflexivity|].
  rewrite IH, existsb_app. cbn [existsb].
  destruct (existsb (id_clash x) l), (id_clash x n), (distinct_ids l),
    (existsb (fun m => id_clash m n) l); reflexivity.
Qed.

Lemma existsb_false_sub {A} (f g : A -> bool) (l l' : list A) :
  (forall x, In x l' -> In x l) -> (forall x, g x = true -> f x = true) ->
  existsb f l = false -> existsb g l' = false.
Proof.
  intros Hsub Hfg H. destruct (existsb g l') eqn:E; [|reflexivity].
  apply existsb_exists in E as (x & Hx & Hg).
  assert (existsb f l = true) by (apply existsb_exists; eauto). congruence.
Qed.

Lemma create_customer_distinct (d d' : db) (customer : row) :
  constrained d Customer = true ->
  distinct_ids (labelled d Customer) = true ->
  create_customer parse_date d customer = Ok d' ->
  constrained d' Customer = true /\ distinct_ids (labelled d' Customer) = true.
Proof.
  intros Hc Hd H. apply create_customer_inv in H as (n & -> & _ & Hl & _ & Hn).
  split; [exact Hc|]. unfold labelled; cbn [nodes].
  rewrite List.filter_app. cbn [List.filter]. unfold has_label at 2.
  rewrite Hl. cbn [label_eqb]. fold (labelled d Customer).
  rewrite distinct_ids_snoc, Hd. cbn [andb]. apply negb_true_iff.
  apply (existsb_false_sub (id_clash n) _ (nodes d)); [apply in_labelled| |auto].
  intros x Hx. now rewrite id_clash_sym.
Qed.

(** X15: with the uniqueness constraint in place, a successful load keeps
    the customer ids pairwise distinct. *)
Theorem load_customers_keeps_ids_distinct (customers_df : list row) (d d' : db) :
  constrained d Customer = true ->
  distinct_ids (labelled d Customer) = true ->
  load_customers parse_date customers_df d = Ok d' ->
  distinct_ids (labelled d' Customer) = true.
Proof.
  intros Hc Hd H. unfold load_customers in H.
  apply (foldM_invariant (create_customer parse_date)
           (fun s => constrained s Customer = true
                     /\ distinct_ids (labelled s Customer) = true)) in H;
    [apply H | | auto].
  intros s a s' Hs [H1 H2]. now apply (create_customer_distinct s s' a).
Qed.

End LoadCustomers.

Lemma load_customers_appends_witness :
  exists d' new,
    load_customers Sample.no_parse [Sample.customer 1; Sample.customer 4]
                   Sample.empty = Ok d' /\
    nodes d' = nodes Sample.empty ++ new /\
    Forall2 (fun customer n =>
               nlabel n = Customer /\
               forall k, In k customer_columns -> prop n k = customer !! k)
            [Sample.customer 1; Sample.customer 4] new.
Proof.
  set (rows := [Sample.customer 1; Sample.customer 4]).
  set (d' := match load_customers Sample.no_parse rows Sample.empty with
             | Ok x => x
             | Err _ => Sample.empty
             end).
  assert (H : load_customers Sample.no_parse rows Sample.empty = Ok d')
    by (vm_compute; reflexivity).
  destruct (load_customers_appends Sample.no_parse rows Sample.empty d' H) as (_ & _ & new & Hn & Hall).
  exists d', new. auto.
Defined.

Lemma load_customers_keeps_ids_distinct_witness :
  let d := create_constraints Sample.empty in
  exists d',
    load_customers Sample.no_parse [Sample.customer 1; Sample.customer 4] d = Ok d' /\
    distinct_ids (labelled d' Customer) = true.
Proof.
  intros d.
  set (rows := [Sample.customer 1; Sample.customer 4]).
  set (d' := match load_customers Sample.no_parse rows d with
             | Ok x => x
             | Err _ => d
             end).
  assert (H : load_customers Sample.no_parse rows d = Ok d')
    by (vm_compute; reflexivity).
  exists d'. split; [exact H|].
  apply (load_customers_keeps_ids_distinct Sample.no_parse rows d d');
    [vm_compute; reflexivity | vm_compute; reflexivity | exact H].
Defined.

Section RepeatedIds.

Variable parse_date : string -> option Z.

Lemma create_customer_keeps_known (d d' : db) (customer : row) (v : option value) :
  create_customer parse_date d customer = Ok d' ->
  constraints d' = constraints d /\
  (customer_with_id d v = true -> customer_with_id d' v = true).
Proof.
  intros H. apply create_customer_inv in H as (n & -> & _). split; [reflexivity|].
  unfold customer_with_id; cbn [nodes]. rewrite existsb_app. now intros ->.
Qed.

Lemma create_customer_known (d d' : db) (a : row) (v : option value) :
  create_customer parse_date d a = Ok d' ->
  matches v (a !! "id") = true ->
  customer_with_id d' v = true.
Proof.
  intros H Hm. apply create_customer_inv in H as (n & -> & _ & Hl & Hk & _).
  unfold customer_with_id; cbn [nodes]. rewrite existsb_app. cbn [existsb].
  unfold has_label. rewrite Hl, (Hk "id") by (now left). cbn [label_eqb andb].
  rewrite Hm. apply orb_true_iff. right. reflexivity.
Qed.

Lemma create_customer_clash (d : db) (b : row) :
  constrained d Customer = true ->
  customer_with_id d (b !! "id") = true ->
  exists e, create_customer parse_date d b = Err e.
Proof.
  intros Hc Hk. destruct (create_customer parse_date d b) as [d'|e] eqn:E; [|eauto].
  exfalso. apply create_customer_inv in E as (n & _ & _ & Hl & Hid & Hfree).
  specialize (Hfree Hc). unfold customer_with_id in Hk.
  apply existsb_exists in Hk as (m & Hm & Hmatch).
  apply andb_true_iff in Hmatch as [Hlab Hmatch].
  assert (Hclash : existsb (id_clash n) (nodes d) = true).
  { apply existsb_exists. exists m. split; [exact Hm|].
    unfold id_clash. rewrite Hl, (Hid "id") by (now left).
    unfold has_label in Hlab. rewrite Hmatch.
    destruct (nlabel m); cbn in *; congruence. }
  congruence.
Qed.

(** X16: with the uniqueness constraint in place, a customer table in which
    two records carry the same id never loads: the statement raises,
    and so stores none of the records. *)
Theorem repeated_customer_id_is_rejected
        (d : db) (a b : row) (before between after : list row) :
  constrained d Customer = true ->
  matches (b !! "id") (a !! "id") = true ->
  exists e,
    load_customers parse_date (before ++ a :: between ++ b :: after) d = Err e.
Proof.
  intros Hc Hab. unfold load_customers. rewrite foldM_app.
  destruct (foldM (create_customer parse_date) d before) as [d1|e] eqn:E1;
    cbn [rbind]; [|eauto].
  assert (C1 : constraints d1 = constraints d).
  { apply (foldM_invariant (create_customer parse_date)
             (fun s => constraints s = constraints d)) in E1; auto.
    intros s x s' Hs <-. now apply (create_customer_keeps_known s s' x None). }
  cbn [foldM].
  destruct (create_customer parse_date d1 a) as [d2|e] eqn:E2; cbn [rbind]; [|eauto].
  pose proof (create_customer_known _ _ _ _ E2 Hab) as K2.
  pose proof (create_customer_keeps_known _ _ _ None E2) as [C2 _].
  rewrite foldM_app.
  destruct (foldM (create_customer parse_date) d2 between) as [d3|e] eqn:E3;
    cbn [rbind]; [|eauto].
  apply (foldM_invariant (create_customer parse_date)
           (fun s => constraints s = constraints d
                     /\ customer_with_id s (b !! "id") = true)) in E3.
  - destruct E3 as [C3 K3]. cbn [foldM].
    destruct (create_customer_clash d3 b) as [e He]; [|exact K3|].
    + unfold constrained in *. now rewrite C3.
    + rewrite He. cbn [rbind]. eauto.
  - intros s x s' Hs [Cs Ks].
    destruct (create_customer_keeps_known s s' x (b !! "id") Hs) as [C' K'].
    split; [congruence | auto].
  - split; [congruence | exact K2].
Qed.

End RepeatedIds.

Lemma repeated_customer_id_is_rejected_witness :
  exists e,
    load_customers Sample.no_parse
      ([] ++ Sample.customer 1 :: [Sample.customer 4] ++ Sample.customer 1 :: [])
      (create_constraints Sample.empty) = Err e.
Proof.
  apply repeated_customer_id_is_rejected; vm_compute; reflexivity.
Defined.

(** ** Loading products and orders *)

Lemma foldM_error {A S} (f : S -> A -> result S) (e0 : error) (a : A) (l : list A) :
  (forall s x e, f s x = Err e -> e = e0) ->
  (forall s, f s a = Err e0) ->
  In a l -> forall s, foldM f s l = Err e0.
Proof.
  intros Hall Ha. induction l as [|x l IH]; cbn [In foldM]; intros Hin s; [destruct Hin|].
  destruct (f s x) as [s'|e] eqn:E; cbn [rbind].
  - destruct Hin as [->|Hin]; [rewrite Ha in E; discriminate | now apply IH].
  - now rewrite (Hall s x e E).
Qed.

Lemma foldM_total {A S} (f : S -> A -> result S) (l : list A) :
  (forall s a, In a l -> exists s', f s a = Ok s') ->
  forall s, exists s', foldM f s l = Ok s'.
Proof.
  induction l as [|x l IH]; cbn [foldM]; intros H s; [eauto|].
  destruct (H s x (or_introl eq_refl)) as [s' ->]. cbn [rbind].
  apply IH. intros s0 a Ha. apply H. now right.
Qed.

Lemma existsb_false_filter_inv {A} (f : A -> bool) (l : list A) :
  (forall x, In x l -> f x = false) -> existsb f l = false.
Proof.
  intros H. destruct (existsb f l) eqn:E; [|reflexivity].
  apply existsb_exists in E as (x & Hx & Hf). rewrite (H x Hx) in Hf. discriminate.
Qed.

Lemma create_category_succeeds (d : db) (v : value) :
  exists n, create_node d Category {[ "name" := v ]}
            = Ok (DB (nodes d ++ [n]) (rels d) (constraints d), n).
Proof.
  unfold create_node.
  assert (H : existsb (id_clash (Node (fresh d) Category {[ "name" := v ]})) (nodes d)
              = false).
  { apply existsb_false_filter_inv. intros m _. unfold id_clash, prop; cbn [nprops].
    rewrite lookup_singleton_ne by discriminate. cbn [matches].
    apply andb_false_r. }
  rewrite H, andb_false_r. eauto.
Qed.

Lemma merge_category_outcome (d : db) (p : node) :
  match prop p "category" with
  | None => merge_category d p = Err MergeNullProperty
  | Some _ => exists d', merge_category d p = Ok d'
  end.
Proof.
  unfold merge_category. destruct (prop p "category") as [v|]; [|reflexivity].
  destruct (List.filter _ (nodes d)) as [|c cs].
  - destruct (create_category_succeeds d v) as [n ->]. cbn [rbind]. eauto.
  - cbn [rbind]. eauto.
Qed.

Lemma merge_category_errors (d : db) (p : node) (e : error) :
  merge_category d p = Err e -> e = MergeNullProperty.
Proof.
  pose proof (merge_category_outcome d p) as H.
  destruct (prop p "category"); [destruct H as [d' ->]; discriminate | congruence].
Qed.

Section LoadProducts.

Variable parse_date : string -> option Z.

Lemma load_products_after (products_df : list row) (d d1 : db) :
  create_products parse_date products_df d = Ok d1 ->
  load_products parse_date products_df d
  = match merge_categories d1 with
    | Ok d2 => (d2, Done)
    | Err e => (d1, Raised e)
    end.
Proof.
  intros H. unfold load_products. cbn [run_steps]. unfold commit. rewrite H.
  destruct (merge_categories d1); reflexivity.
Qed.

(** X17: load_products runs two statements.  Once the products are created,
    the category statement raises exactly when a stored product has no
    category; the products created by the first statement then stay in
    the database, without categories. *)
Theorem load_products_commits_products_first
        (products_df : list row) (d d1 : db) :
  create_products parse_date products_df d = Ok d1 ->
  if forallb categorised (labelled d1 Product)
  then snd (load_products parse_date products_df d) = Done
  else load_products parse_date products_df d = (d1, Raised MergeNullProperty).
Proof.
  intros H. rewrite (load_products_after _ _ _ H). unfold merge_categories.
  destruct (forallb categorised (labelled d1 Product)) eqn:E.
  - destruct (foldM_total merge_category (labelled d1 Product)) with (s := d1)
      as [d2 ->]; [|reflexivity].
    intros s p Hp. rewrite forallb_forall in E. specialize (E p Hp).
    pose proof (merge_category_outcome s p) as Hm. unfold categorised in E.
    destruct (prop p "category"); [exact Hm | discriminate].
  - apply forallb_false in E as (p & Hp & Hc).
    rewrite (foldM_error merge_category MergeNullProperty p); [reflexivity| | |exact Hp].
    + intros s x e. apply merge_category_errors.
    + intros s. pose proof (merge_category_outcome s p) as Hm. unfold categorised in Hc.
      destruct (prop p "category"); [discriminate | exact Hm].
Qed.

End LoadProducts.

Lemma load_products_commits_products_first_witness :
  exists d1,
    create_products Sample.no_parse Sample.uncategorised_products Sample.empty = Ok d1 /\
    length (labelled d1 Product) = 2 /\
    load_products Sample.no_parse Sample.uncategorised_products Sample.empty
    = (d1, Raised MergeNullProperty).
Proof.
  set (d1 := match create_products Sample.no_parse Sample.uncategorised_products
                                   Sample.empty with
             | Ok x => x
             | Err _ => Sample.empty
             end).
  assert (H : create_products Sample.no_parse Sample.uncategorised_products
                              Sample.empty = Ok d1) by (vm_compute; reflexivity).
  assert (E : forallb categorised (labelled d1 Product) = false)
    by (vm_compute; reflexivity).
  pose proof (load_products_commits_products_first Sample.no_parse _ _ _ H) as L.
  rewrite E in L. exists d1. split; [exact H|].
  split; [vm_compute; reflexivity | exact L].
Defined.

Section LoadOrders.

Variable parse_date : string -> option Z.

Lemma create_order_inv (order : row) (d d' : db) (cp : node * node) :
  create_order parse_date order d cp = Ok d' ->
  exists o,
    nid o = fresh d /\ nlabel o = Order /\
    d' = DB (nodes d ++ [o])
            ((rels d ++ [Rel PLACED (nid (fst cp)) (nid o) ∅])
             ++ [Rel CONTAINS (nid o) (nid (snd cp)) ∅])
            (constraints d).
Proof.
  unfold create_order.
  destruct (date parse_date _) as [dt|e]; cbn [rbind]; [|discriminate].
  set (ps := props_of _).
  destruct (create_node d Order ps) as [[d1 o]|e] eqn:E; cbn [rbind fst snd];
    [|discriminate].
  apply create_node_inv in E as [-> ->]. intros H. apply Ok_inj in H as <-.
  exists (Node (fresh d) Order ps). split; [reflexivity|]. split; reflexivity.
Qed.

Lemma order_growth_step (order : row) (d s s' : db) (cp : node * node) :
  order_growth d s ->
  create_order parse_date order s cp = Ok s' ->
  order_growth d s'.
Proof.
  intros (Hc & new & extra & Hn & Hr & Hnew & Hextra & Hlen) H.
  apply create_order_inv in H as (o & _ & Hl & ->). cbn [nodes rels constraints].
  split; [exact Hc|].
  exists (new ++ [o]),
         ((extra ++ [Rel PLACED (nid (fst cp)) (nid o) ∅])
          ++ [Rel CONTAINS (nid o) (nid (snd cp)) ∅]).
  rewrite Hn, Hr, !forallb_app, Hnew, Hextra, !length_app, <- !app_assoc.
  cbn [forallb length rtyp rtype_eqb orb andb]. unfold has_label. rewrite Hl.
  cbn [label_eqb andb]. repeat split. lia.
Qed.

(** X18: a successful load of orders adds Order nodes and, for each of them,
    one PLACED and one CONTAINS relationship; it adds nothing else and
    changes no customer and no product. *)
Theorem load_orders_adds_orders_only (orders_df : list row) (d d' : db) :
  load_orders parse_date orders_df d = Ok d' ->
  order_growth d d' /\ parties d' = parties d.
Proof.
  intros H. unfold load_orders in H. split.
  - apply (foldM_invariant (load_order parse_date) (order_growth d)) in H; auto.
    + intros s order s' Hs Hg. unfold load_order in Hs.
      apply (foldM_invariant (create_order parse_date order) (order_growth d)) in Hs;
        auto.
      intros s0 cp s0' Hs0 Hg0. now apply (order_growth_step order d s0 s0' cp).
    + split; [reflexivity|]. exists [], []. now rewrite !app_nil_r.
  - apply (foldM_invariant (load_order parse_date)
             (fun s => parties s = parties d)) in H; auto.
    intros s order s' Hs <-. exact (load_order_parties parse_date s s' order Hs).
Qed.

End LoadOrders.

Lemma load_orders_adds_orders_only_witness :
  let d := Sample.load [Sample.customer 1] [Sample.product 10] [] in
  exists d', load_orders Sample.no_parse Sample.dangling_orders d = Ok d' /\
             order_growth d d' /\ parties d' = parties d.
Proof.
  intros d.
  set (d' := match load_orders Sample.no_parse Sample.dangling_orders d with
             | Ok x => x
             | Err _ => d
             end).
  assert (H : load_orders Sample.no_parse Sample.dangling_orders d = Ok d')
    by (vm_compute; reflexivity).
  exists d'. split; [exact H|].
  exact (load_orders_adds_orders_only Sample.no_parse _ d d' H).
Defined.

(** ** Constraints and analytics *)

Lemma label_eqb_eq (a b : label) : label_eqb a b = true <-> a = b.
Proof. destruct a, b; cbn; split; congruence. Qed.

Lemma create_constraint_step (d : db) (l : label) :
  let d1 := match create_constraint d l with Ok d' => d' | Err _ => d end in
  nodes d1 = nodes d /\ rels d1 = rels d /\
  forall l', constrained d1 l'
             = constrained d l' || (label_eqb l' l && distinct_ids (labelled d l')).
Proof.
  unfold create_constraint. destruct (constrained d l) eqn:Hc.
  - cbn. repeat split. intros l'. destruct (label_eqb l' l) eqn:E.
    + apply label_eqb_eq in E as ->. now rewrite Hc.
    + now rewrite orb_false_r.
  - destruct (distinct_ids (labelled d l)) eqn:Hd; cbn [nodes rels].
    + repeat split. intros l'. unfold constrained; cbn [constraints].
      rewrite existsb_app. cbn [existsb]. rewrite orb_false_r.
      destruct (label_eqb l' l) eqn:E; [|now rewrite !orb_false_r].
      apply label_eqb_eq in E as ->. now rewrite Hd.
    + repeat split. intros l'. destruct (label_eqb l' l) eqn:E.
      * apply label_eqb_eq in E as ->. rewrite Hd. now rewrite orb_false_r.
      * now rewrite orb_false_r.
Qed.

Lemma create_constraints_fold (ls : list label) (d : db) :
  let d' := fold_left (fun d l => match create_constraint d l with
                                  | Ok d' => d'
                                  | Err _ => d
                                  end) ls d in
  nodes d' = nodes d /\ rels d' = rels d /\
  forall l, constrained d' l
            = constrained d l
              || (existsb (label_eqb l) ls && distinct_ids (labelled d l)).
Proof.
  revert d. induction ls as [|x ls IH]; intros d; cbn [fold_left existsb].
  - repeat split. intros l. now rewrite orb_false_r.
  - destruct (create_constraint_step d x) as (Hn & Hr & Hc).
    destruct (IH (match create_constraint d x with Ok d' => d' | Err _ => d end))
      as (Hn' & Hr' & Hc').
    repeat split; [congruence | congruence |].
    intros l. rewrite Hc', Hc. unfold labelled. rewrite Hn.
    destruct (constrained d l), (label_eqb l x), (existsb (label_eqb l) ls),
      (distinct_ids (List.filter (has_label l) (nodes d))); reflexivity.
Qed.

(** X20: create_constraints touches no node and no relationship, keeps every
    constraint there is, and adds the constraint of each of its four
    labels exactly when the stored nodes of that label have pairwise
    distinct ids; a constraint that cannot be created is skipped. *)
Theorem create_constraints_adds_what_holds (d : db) :
  nodes (create_constraints d) = nodes d /\
  rels (create_constraints d) = rels d /\
  forall l, constrained (create_constraints d) l
            = constrained d l
              || (constraint_target l && distinct_ids (labelled d l)).
Proof.
  unfold create_constraints.
  destruct (create_constraints_fold [Customer; Product; Order; Employee] d)
    as (Hn & Hr & Hc).
  repeat split; [exact Hn | exact Hr |].
  intros l. rewrite Hc. now destruct l.
Qed.

Lemma differs_only_on_refl (keys : list string) (d : db) :
  differs_only_on keys d d.
Proof. repeat split. intros i c Hi. exists c. auto. Qed.

Lemma differs_only_on_trans (keys : list string) (d1 d2 d3 : db) :
  differs_only_on keys d1 d2 -> differs_only_on keys d2 d3 ->
  differs_only_on keys d1 d3.
Proof.
  intros (Hr & Hc & Hl & H) (Hr' & Hc' & Hl' & H').
  repeat split; [congruence | congruence | congruence |].
  intros i c Hi. destruct (H i c Hi) as (c2 & Hi2 & I2 & L2 & S2 & K2).
  destruct (H' i c2 Hi2) as (c3 & Hi3 & I3 & L3 & S3 & K3).
  exists c3. repeat split; try congruence.
  - intros Hn. rewrite <- (S2 Hn). apply S3. unfold has_label in *. now rewrite L2.
  - intros k Hk. now rewrite K3, K2.
Qed.

Lemma write_property_differs (keys : list string) (k : string)
      (f : node -> value) (d : db) :
  In k keys -> differs_only_on keys d (write_property k f d).
Proof.
  intros Hk. unfold write_property. repeat split; cbn [nodes rels constraints].
  - apply length_map.
  - intros i c Hi. rewrite list_lookup_fmap, Hi. cbn [fmap option_fmap option_map].
    eexists. split; [reflexivity|]. destruct (has_label Customer c) eqn:Hl.
    + repeat split; [discriminate|]. intros k' Hk'. unfold prop; cbn [nprops].
      apply lookup_insert_ne. intros ->. now apply Hk'.
    + auto.
Qed.

Section Analytics.

Variable gds_project : db -> bool.
Variable gds : string -> db -> option (node -> value).

Lemma run_graph_analytics_differs (d : db) :
  differs_only_on analytics_keys d (run_graph_analytics gds_project gds d).
Proof.
  unfold run_graph_analytics.
  destruct (gds_project d); [|apply differs_only_on_refl].
  cbn [fold_left fst snd].
  repeat (match goal with
          | |- differs_only_on _ _ (match gds ?n ?x with _ => _ end) =>
              apply (differs_only_on_trans _ _ x);
              [| destruct (gds n x);
                 [ apply write_property_differs; cbn; tauto
                 | apply differs_only_on_refl ] ]
          end).
  apply differs_only_on_refl.
Qed.

End Analytics.

(** ** Invariants of a run *)

Lemma mapM_update_nids (d : db) (l ns : list node) :
  mapM (update_customer d) l = Ok ns -> map nid ns = map nid l.
Proof.
  revert ns. induction l as [|a l IH]; cbn [mapM]; intros ns H.
  - apply Ok_inj in H as <-. reflexivity.
  - destruct (update_customer d a) as [b|e] eqn:Ea; cbn [rbind] in H; [|discriminate].
    destruct (mapM (update_customer d) l) as [bs|e]; cbn [rbind] in H; [|discriminate].
    apply Ok_inj in H as <-. cbn [map]. rewrite (IH bs eq_refl).
    apply update_customer_frame in Ea as (-> & _). reflexivity.
Qed.

Lemma metrics_nids (d d' : db) :
  calculate_customer_metrics d = Ok d' ->
  map nid (nodes d') = map nid (nodes d) /\ rels d' = rels d.
Proof.
  unfold calculate_customer_metrics.
  destruct (mapM (update_customer d) (nodes d)) as [ns|e] eqn:E; cbn [rbind];
    [|discriminate].
  intros H. apply Ok_inj in H as <-. cbn [nodes rels].
  split; [now apply mapM_update_nids in E | reflexivity].
Qed.

Lemma differs_nids (keys : list string) (d d' : db) :
  differs_only_on keys d d' -> map nid (nodes d') = map nid (nodes d).
Proof.
  intros (_ & _ & Hlen & H). apply list_eq. intros i. rewrite !list_lookup_fmap.
  destruct (nodes d !! i) as [c|] eqn:Hi.
  - destruct (H i c Hi) as (c' & Hi' & Hid & _). rewrite Hi'. cbn.
    now rewrite Hid.
  - apply lookup_ge_None in Hi. rewrite <- Hlen in Hi.
    apply lookup_ge_None in Hi. now rewrite Hi.
Qed.

Section RunInvariants.

Variable parse_date : string -> option Z.
Variable gds_project : db -> bool.
Variable gds : string -> db -> option (node -> value).

Lemma create_product_inv (d d' : db) (product : row) :
  create_product parse_date d product = Ok d' ->
  exists n, nid n = fresh d /\ nlabel n = Product /\
            d' = DB (nodes d ++ [n]) (rels d) (constraints d).
Proof.
  unfold create_product.
  destruct (date parse_date _) as [dt|e]; cbn [rbind]; [|discriminate].
  set (ps := props_of _).
  destruct (create_node d Product ps) as [[d1 n]|e] eqn:E; cbn [rbind fst];
    [|discriminate].
  apply create_node_inv in E as [-> ->]. intros H. apply Ok_inj in H as <-.
  exists (Node (fresh d) Product ps). auto.
Qed.

Lemma merge_category_inv (d d' : db) (p : node) :
  merge_category d p = Ok d' ->
  exists new cs,
    nodes d' = nodes d ++ new /\
    (new = [] \/ exists n, new = [n] /\ nid n = fresh d) /\
    (forall c, In c cs -> In c (nodes d ++ new)) /\
    d' = fold_left (fun d c => if linked d BELONGS_TO p c then d
                               else create_rel d BELONGS_TO p c)
                   cs (DB (nodes d ++ new) (rels d) (constraints d)).
Proof.
  unfold merge_category. destruct (prop p "category") as [v|]; [|discriminate].
  destruct (List.filter _ (nodes d)) as [|c cs] eqn:Ef.
  - destruct (create_category_succeeds d v) as [n Hn].
    assert (Hid : nid n = fresh d).
    { unfold create_node in Hn.
      destruct (constrained d Category && _); [discriminate|].
      apply Ok_inj in Hn. now inversion Hn. }
    rewrite Hn. cbn [rbind fst snd]. intros H. apply Ok_inj in H as <-.
    exists [n], [n]. rewrite link_nodes. cbn [nodes]. repeat split.
    + right. eauto.
    + intros c [<-|[]]. apply in_or_app. right. now left.
  - cbn [rbind fst snd]. intros H. apply Ok_inj in H as <-.
    exists [], (c :: cs). rewrite link_nodes, app_nil_r. repeat split.
    + now left.
    + intros x Hx. rewrite <- Ef in Hx. now apply filter_In in Hx as [Hx _].
    + now destruct d.
Qed.

End RunInvariants.

Lemma stored_app (ns ms : list node) (i : nat) :
  stored (ns ++ ms) i = stored ns i || stored ms i.
Proof. apply existsb_app. Qed.

Lemma stored_in (ns : list node) (n : node) : In n ns -> stored ns (nid n) = true.
Proof.
  intros H. apply existsb_exists. exists n. split; [exact H | apply Nat.eqb_refl].
Qed.

Lemma stored_nids (ns ms : list node) (i : nat) :
  map nid ns = map nid ms -> stored ns i = stored ms i.
Proof.
  revert ms. induction ns as [|n ns IH]; intros [|m ms]; cbn [map]; try discriminate.
  - reflexivity.
  - intros H. injection H as Hn Hrest. unfold stored in *. cbn [existsb].
    now rewrite Hn, (IH ms Hrest).
Qed.

Lemma wf_same_nids (d d' : db) :
  map nid (nodes d') = map nid (nodes d) -> rels d' = rels d ->
  wf_db d -> wf_db d'.
Proof.
  unfold wf_db. intros Hn -> H. rewrite forallb_forall in *. intros r Hr.
  rewrite !(stored_nids _ _ _ Hn). now apply H.
Qed.

Lemma wf_grow (d d' : db) :
  (forall i, stored (nodes d) i = true -> stored (nodes d') i = true) ->
  rels d' = rels d -> wf_db d -> wf_db d'.
Proof.
  unfold wf_db. intros Hm -> H. rewrite forallb_forall in *. intros r Hr.
  specialize (H r Hr). apply andb_true_iff in H as [H1 H2].
  now rewrite (Hm _ H1), (Hm _ H2).
Qed.

Lemma wf_add_rels (d : db) (extra : list rel) (cs : list label) :
  wf_db d ->
  forallb (fun r => stored (nodes d) (rsrc r) && stored (nodes d) (rdst r)) extra = true ->
  wf_db (DB (nodes d) (rels d ++ extra) cs).
Proof. unfold wf_db; cbn [nodes rels]. intros H1 H2. now rewrite forallb_app, H1, H2. Qed.

Lemma wf_add_node (d : db) (n : node) (cs : list label) :
  wf_db d -> wf_db (DB (nodes d ++ [n]) (rels d) cs).
Proof.
  apply wf_grow; [|reflexivity]. intros i Hi. cbn [nodes].
  now rewrite stored_app, Hi.
Qed.

Lemma foldM_invariant_in {A S} (f : S -> A -> result S) (P : S -> Prop) (l : list A) :
  (forall s a s', In a l -> f s a = Ok s' -> P s -> P s') ->
  forall s s', foldM f s l = Ok s' -> P s -> P s'.
Proof.
  induction l as [|a l IH]; cbn [foldM]; intros Hf s s' H Hs.
  - now apply Ok_inj in H as <-.
  - destruct (f s a) as [s1|e] eqn:E; cbn [rbind] in H; [|discriminate].
    apply (IH (fun s0 x s0' Hx => Hf s0 x s0' (or_intror Hx)) s1 s' H).
    apply (Hf s a s1 (or_introl eq_refl) E Hs).
Qed.

Lemma link_wf (t : rtype) (p : node) (cs : list node) (d : db) :
  wf_db d -> stored (nodes d) (nid p) = true ->
  (forall c, In c cs -> In c (nodes d)) ->
  let d' := fold_left (fun d c => if linked d t p c then d else create_rel d t p c)
                      cs d in
  wf_db d' /\ nodes d' = nodes d.
Proof.
  revert d. induction cs as [|c cs IH]; intros d Hd Hp Hcs; cbn [fold_left]; [auto|].
  destruct (IH (if linked d t p c then d else create_rel d t p c)) as [H1 H2].
  - destruct (linked d t p c); [exact Hd|].
    apply wf_add_rels; [exact Hd|]. cbn [forallb rsrc rdst].
    rewrite Hp, (stored_in _ c) by (apply Hcs; now left). reflexivity.
  - now destruct (linked d t p c).
  - intros x Hx. destruct (linked d t p c); apply Hcs; now right.
  - split; [exact H1|]. rewrite H2. now destruct (linked d t p c).
Qed.

Lemma in_order_endpoints (d : db) (order : row) (c p : node) :
  In (c, p) (order_endpoints d order) -> In c (nodes d) /\ In p (nodes d).
Proof.
  unfold order_endpoints. rewrite in_flat_map. intros (c' & Hc & H).
  apply in_map_iff in H as (p' & E & Hp). injection E as -> ->.
  apply filter_In in Hc as [Hc _]. apply filter_In in Hp as [Hp _]. auto.
Qed.

Lemma derived_edges_stored (d : db) :
  forallb (fun r => stored (nodes d) (rsrc r) && stored (nodes d) (rdst r))
          (derived_edges d) = true.
Proof.
  apply forallb_forall. intros r Hr.
  destruct (derived_edge_row d r Hr) as (a & b & Ha & Hb & <- & <- & _).
  now rewrite !stored_in.
Qed.

Section RunWellFormed.

Variable parse_date : string -> option Z.
Variable gds_project : db -> bool.
Variable gds : string -> db -> option (node -> value).

Lemma merge_category_wf (d0 d d' : db) (p : node) :
  In p (nodes d0) ->
  merge_category d p = Ok d' ->
  wf_db d /\ (forall i, stored (nodes d0) i = true -> stored (nodes d) i = true) ->
  wf_db d' /\ (forall i, stored (nodes d0) i = true -> stored (nodes d') i = true).
Proof.
  intros Hp H [Hd Hm].
  apply merge_category_inv in H as (new & cs & Hn & _ & Hcs & ->).
  assert (Hgrow : forall i, stored (nodes d) i = true
                           -> stored (nodes d ++ new) i = true).
  { intros i Hi. now rewrite stored_app, Hi. }
  destruct (link_wf BELONGS_TO p cs (DB (nodes d ++ new) (rels d) (constraints d)))
    as [H1 H2].
  - now apply (wf_grow d).
  - cbn [nodes]. apply Hgrow, Hm, stored_in, Hp.
  - exact Hcs.
  - split; [exact H1|]. intros i Hi. rewrite H2. cbn [nodes]. auto.
Qed.

Lemma create_order_wf (order : row) (d0 d d' : db) (cp : node * node) :
  In (fst cp) (nodes d0) -> In (snd cp) (nodes d0) ->
  create_order parse_date order d cp = Ok d' ->
  wf_db d /\ (forall i, stored (nodes d0) i = true -> stored (nodes d) i = true) ->
  wf_db d' /\ (forall i, stored (nodes d0) i = true -> stored (nodes d') i = true).
Proof.
  intros Hc Hp H [Hd Hm]. apply create_order_inv in H as (o & _ & _ & ->).
  assert (Hgrow : forall i, stored (nodes d) i = true
                           -> stored (nodes d ++ [o]) i = true).
  { intros i Hi. now rewrite stored_app, Hi. }
  split; [|cbn [nodes]; auto].
  rewrite <- app_assoc.
  apply (wf_add_rels (DB (nodes d ++ [o]) (rels d) (constraints d))).
  - now apply wf_add_node.
  - cbn [app forallb nodes rsrc rdst].
    rewrite (Hgrow _ (Hm _ (stored_in _ _ Hc))), (Hgrow _ (Hm _ (stored_in _ _ Hp))).
    rewrite stored_app. cbn [stored existsb]. rewrite Nat.eqb_refl.
    now rewrite !orb_true_r.
Qed.

Lemma steps_keep_well_formed (customers_df products_df orders_df : list row) :
  Forall (preserves wf_db)
    ([ always create_constraints;
       commit (load_customers parse_date customers_df);
       load_products parse_date products_df;
       commit (load_orders parse_date orders_df);
       always create_customer_similarity_relationships;
       always create_product_co_purchase_relationships ]
     ++ [ commit calculate_customer_metrics;
          always (run_graph_analytics gds_project gds) ]).
Proof.
  cbn [app]. repeat apply List.Forall_cons; try apply List.Forall_nil.
  - apply always_preserves. intros d.
    destruct (create_constraints_fold [Customer; Product; Order; Employee] d)
      as (Hn & Hr & _).
    apply wf_same_nids; [now f_equal | exact Hr].
  - apply commit_preserves. intros d d'.
    apply (foldM_invariant (create_customer parse_date) wf_db).
    intros s a s' Hs Hd. apply create_customer_inv in Hs as (n & -> & _).
    now apply wf_add_node.
  - apply run_steps_preserves.
    repeat apply List.Forall_cons; try apply List.Forall_nil.
    + apply commit_preserves. intros d d'.
      apply (foldM_invariant (create_product parse_date) wf_db).
      intros s a s' Hs Hd. apply create_product_inv in Hs as (n & _ & _ & ->).
      now apply wf_add_node.
    + apply commit_preserves. intros d d' H Hd. unfold merge_categories in H.
      apply (foldM_invariant_in merge_category
               (fun s => wf_db s /\ forall i, stored (nodes d) i = true
                                              -> stored (nodes s) i = true)) in H.
      * apply H.
      * intros s p s' Hp. apply (merge_category_wf d). now apply in_labelled in Hp.
      * auto.
  - apply commit_preserves. intros d d'.
    apply (foldM_invariant (load_order parse_date) wf_db).
    intros s order s' H Hs. unfold load_order in H.
    apply (foldM_invariant_in (create_order parse_date order)
             (fun s0 => wf_db s0 /\ forall i, stored (nodes s) i = true
                                              -> stored (nodes s0) i = true)) in H.
    + apply H.
    + intros s0 [c p] s0' Hcp. apply in_order_endpoints in Hcp as [Hc Hp].
      now apply (create_order_wf order s).
    + auto.
  - apply always_preserves. intros d Hd.
    unfold create_customer_similarity_relationships. apply wf_add_rels; [exact Hd|].
    pose proof (derived_edges_stored d) as H. unfold derived_edges in H.
    rewrite forallb_app in H. now apply andb_true_iff in H as [H _].
  - apply always_preserves. intros d Hd.
    unfold create_product_co_purchase_relationships. apply wf_add_rels; [exact Hd|].
    pose proof (derived_edges_stored d) as H. unfold derived_edges in H.
    rewrite forallb_app in H. now apply andb_true_iff in H as [_ H].
  - apply commit_preserves. intros d d' H. apply metrics_nids in H as [Hn Hr].
    now apply wf_same_nids.
  - apply always_preserves. intros d.
    pose proof (run_graph_analytics_differs gds_project gds d) as H.
    apply wf_same_nids; [exact (differs_nids _ _ _ H) | apply H].
Qed.

(** X23: a run leaves no dangling relationship: from a database whose
    relationships all have their end nodes, every relationship of the
    database after the run, complete or failed, has both its end nodes
    stored. *)
Theorem run_keeps_store_well_formed
        (d : db) (customers_df products_df orders_df : list row) :
  wf_db d ->
  wf_db (fst (main parse_date gds_project gds d customers_df products_df orders_df)).
Proof.
  intros Hd. rewrite main_steps.
  apply (run_steps_preserves wf_db).
  - apply steps_keep_well_formed.
  - now rewrite (clear_database_wf d Hd).
Qed.

End RunWellFormed.

Lemma run_keeps_store_well_formed_witness :
  wf_db (fst (main Sample.no_parse Sample.no_projection Sample.no_gds
                   (fst Sample.scenario_run)
                   [Sample.customer 1] [Sample.product 10] Sample.sparse_orders)).
Proof.
  apply run_keeps_store_well_formed. unfold wf_db. vm_compute. reflexivity.
Defined.

(** ** Matching orders, and the symmetry of the counts *)

Lemma eqv_trans (v a b : value) :
  eqv v a = true -> eqv v b = true -> eqv a b = true.
Proof.
  destruct v, a, b; cbn [eqv]; try discriminate.
  - rewrite !Qeq_bool_iff. intros H1 H2. now rewrite <- H1, <- H2.
  - rewrite !String.eqb_eq. congruence.
  - rewrite !Z.eqb_eq. congruence.
  - rewrite !andb_true_iff, !Z.eqb_eq. intros [-> ->] [-> ->]. auto.
Qed.

Lemma matching_unique (l : label) (v : option value) (ns : list node) :
  distinct_ids (List.filter (has_label l) ns) = true ->
  length (List.filter (fun n => has_label l n && matches v (prop n "id")) ns) <= 1.
Proof.
  induction ns as [|x ns IH]; cbn [List.filter length]; [lia|].
  destruct (has_label l x) eqn:Hl; cbn [andb]; [|exact IH].
  cbn [distinct_ids]. rewrite andb_true_iff, negb_true_iff. intros [Hx Hd].
  specialize (IH Hd). destruct (matches v (prop x "id")) eqn:Hm; [|exact IH].
  rewrite filter_none; [cbn [length]; lia|].
  intros y Hy. destruct (has_label l y) eqn:Hly; [|reflexivity]. cbn [andb].
  destruct (matches v (prop y "id")) eqn:Hmy; [|reflexivity]. exfalso.
  assert (Hclash : existsb (id_clash x) (List.filter (has_label l) ns) = true).
  { apply existsb_exists. exists y. split; [apply filter_In; auto|].
    unfold id_clash. apply andb_true_iff. split.
    - unfold has_label in *. apply label_eqb_eq in Hl, Hly.
      rewrite Hl, Hly. now destruct l.
    - destruct v as [v|]; [|discriminate]. cbn [matches] in *.
      destruct (prop x "id") as [a|]; [|discriminate].
      destruct (prop y "id") as [b|]; [|discriminate].
      now apply (eqv_trans v). }
  congruence.
Qed.

(** X19: when the customer ids and the product ids are pairwise distinct, an
    order matches one customer and one product at most, so load_orders
    stores it once: once when it names a stored customer and a stored
    product, and not at all when it is dangling. *)
Theorem order_is_stored_at_most_once (d : db) (order : row) :
  distinct_ids (labelled d Customer) = true ->
  distinct_ids (labelled d Product) = true ->
  length (order_endpoints d order) = if dangling d order then 0 else 1.
Proof.
  intros Hc Hp. destruct (dangling d order) eqn:Hd.
  - now rewrite (dangling_no_endpoints d order Hd).
  - unfold dangling in Hd. apply orb_false_iff in Hd as [H1 H2].
    apply negb_false_iff in H1, H2. unfold customer_present, product_present in *.
    apply existsb_filter_nonempty in H1, H2.
    pose proof (matching_unique Customer (order !! "customer_id") (nodes d) Hc) as L1.
    pose proof (matching_unique Product (order !! "product_id") (nodes d) Hp) as L2.
    unfold order_endpoints.
    destruct (List.filter _ (nodes d)) as [|c [|c' cs]]; cbn [length] in L1;
      [congruence | | lia].
    cbn [flat_map]. rewrite app_nil_r, length_map.
    destruct (List.filter _ (nodes d)) as [|p [|p' ps]]; cbn [length] in *;
      [congruence | reflexivity | lia].
Qed.

Lemma order_is_stored_at_most_once_witness :
  let d := Sample.load [Sample.customer 1] [Sample.product 10] [] in
  map (fun order => length (order_endpoints d order)) Sample.dangling_orders
  = map (fun order => if dangling d order then 0 else 1) Sample.dangling_orders.
Proof.
  intros d.
  assert (Hc : distinct_ids (labelled d Customer) = true) by (vm_compute; reflexivity).
  assert (Hp : distinct_ids (labelled d Product) = true) by (vm_compute; reflexivity).
  unfold Sample.dangling_orders. cbn [map].
  now rewrite !(order_is_stored_at_most_once d _ Hc Hp).
Defined.

Lemma same_node_sym (a b : node) : same_node a b = same_node b a.
Proof. apply Nat.eqb_sym. Qed.

Lemma pair_count_cons (x : node) (l1 l2 : list node) :
  length (flat_map (fun y => List.filter (same_node y) (x :: l1)) l2)
  = length (List.filter (same_node x) l2)
    + length (flat_map (fun y => List.filter (same_node y) l1) l2).
Proof.
  induction l2 as [|y l2 IH]; [reflexivity|].
  cbn [flat_map]. rewrite length_app, IH.
  change (List.filter (same_node x) (y :: l2))
    with (if same_node x y then y :: List.filter (same_node x) l2
          else List.filter (same_node x) l2).
  change (List.filter (same_node y) (x :: l1))
    with (if same_node y x then x :: List.filter (same_node y) l1
          else List.filter (same_node y) l1).
  rewrite (same_node_sym x y). destruct (same_node y x); cbn [length];
    rewrite ?length_app; lia.
Qed.

(** X13: the strength of a pair of customers does not depend on the order in
    which the two are taken: the id comparison of the query only picks
    the direction of the edge. *)
Theorem common_products_symmetric (d : db) (c1 c2 : node) :
  common_products d c1 c2 = common_products d c2 c1.
Proof.
  unfold common_products.
  induction (purchased d c1) as [|x l1 IH]; cbn [flat_map].
  - symmetry. rewrite flat_map_nil; [reflexivity|]. reflexivity.
  - now rewrite length_app, IH, pair_count_cons.
Qed.
